(** * Buienradar collection pipeline: fetch, normalise, persist

    A shallow embedding of [weather_automation.py] (class
    [BuienradarClient]): the five methods, and the part of pandas and of
    SQLite (through Python's [sqlite3]) that they go through.

    What is modelled, and how far.
    - A raw record is a JSON object whose fields hold strings or
      integers.  A sensor reading is represented by an integer: the
      properties below use readings through equality only.  JSON null,
      booleans and nested values are not modelled.
    - pandas 2.x.  [pd.DataFrame] of a list of dicts has one column per
      key that occurs in some dict and a missing value (NaN) where a dict
      lacks the key.  A column without text and with a missing value is
      float64, in which the integer [z] prints as [z.0]; this is how
      Python and SQLite both print it for the integers below 10^15 in
      magnitude.  [to_sql] writes missing values as NULL.
    - SQLite.  A value stored in a TEXT column is stored as its text;
      values of other columns are kept as they are bound.  NULLs never
      collide in a unique key.  Table and index names share one name
      space.  A connection enforces foreign keys only after
      [PRAGMA foreign_keys = ON].  Data definition statements are
      committed one by one (Python's [sqlite3] opens no transaction for
      them); the INSERT of [to_sql] runs in one transaction that is
      rolled back when a row fails.
    - Opening the database file always succeeds; the text of an
      exception in a log line is abbreviated. *)

From Stdlib Require Import Ascii.
From stdpp Require Import gmap strings list fin_maps pretty.

Local Open Scope string_scope.

(** ** Logging *)

Inductive level := INFO | WARNING | ERROR.

Record log_line := Log { lvl : level; msg : string }.

#[global] Instance level_eq_dec : EqDecision level.
Proof. solve_decision. Defined.

#[global] Instance log_line_eq_dec : EqDecision log_line.
Proof. solve_decision. Defined.

Inductive exn :=
| RequestException (what : string)
| KeyError (key : string)
| IntegrityError (what : string)
| OperationalError (what : string)
| OtherException (what : string).

#[global] Instance exn_eq_dec : EqDecision exn.
Proof. solve_decision. Defined.

Definition describe (e : exn) : string :=
  match e with
  | RequestException w => w
  | KeyError k => "'" +:+ k +:+ "'"
  | IntegrityError w => w
  | OperationalError w => w
  | OtherException w => w
  end.

(** ** Raw records and data frames *)

(** A JSON scalar of the feed. *)
Inductive scalar := JStr (s : string) | JInt (z : Z).

(** One element of [stationmeasurements]: a Python dict. *)
Abbreviation record := (gmap string scalar).

(** A cell of a DataFrame: [NaN] is the missing value, [Flt z] the
    float64 holding the integer [z]. *)
Inductive cell := NaN | Str (s : string) | Int (z : Z) | Flt (z : Z).

#[global] Instance scalar_eq_dec : EqDecision scalar.
Proof. solve_decision. Defined.

#[global] Instance cell_eq_dec : EqDecision cell.
Proof. solve_decision. Defined.

Abbreviation row := (list cell).

Record frame := Frame { columns : list string; rows : list row }.

#[global] Instance frame_eq_dec : EqDecision frame.
Proof. solve_decision. Defined.

(** [len(df)] and [df.empty]. *)
Definition len (f : frame) : nat := length (rows f).

Definition empty (f : frame) : bool :=
  match rows f, columns f with
  | [], _ | _, [] => true
  | _, _ => false
  end.

Inductive dtype := int64 | float64 | object.

Definition is_text (c : cell) : bool :=
  match c with Str _ => true | _ => false end.

Definition is_float (c : cell) : bool :=
  match c with NaN | Flt _ => true | _ => false end.

(** The dtype pandas infers for a column of cells: object when it holds
    text, else float64 when it holds a float (the missing value is one),
    else int64. *)
Definition infer_dtype (col : list cell) : dtype :=
  if existsb is_text col then object
  else if existsb is_float col then float64
  else int64.

Definition promote (dt : dtype) (c : cell) : cell :=
  match dt, c with
  | float64, Int z => Flt z
  | _, _ => c
  end.

Definition raw_cell (r : record) (c : string) : cell :=
  match r !! c with
  | Some (JStr s) => Str s
  | Some (JInt z) => Int z
  | None => NaN
  end.

(** The keys of all the records: the columns of [pd.DataFrame(raw)].
    Columns are only ever selected by name, so their order is left
    open. *)
Definition all_keys (raw : list record) : gset string :=
  ⋃ (dom <$> raw).

Definition raw_column (raw : list record) (c : string) : list cell :=
  (λ r, raw_cell r c) <$> raw.

(** [pd.DataFrame(raw_data)] for a list of dicts: one column per key
    that occurs, one row per record, [NaN] where a record lacks the
    key. *)
Definition DataFrame (raw : list record) : frame :=
  let cols := elements (all_keys raw) in
  {| columns := cols;
     rows := (λ r, (λ c, promote (infer_dtype (raw_column raw c)) (raw_cell r c))
                     <$> cols) <$> raw |}.

(** Position of a name in a list of column names. *)
Definition position (names : list string) (c : string) : option nat :=
  fst <$> list_find (λ c', c' = c) names.

Definition column_index (f : frame) (c : string) : option nat :=
  position (columns f) c.

Definition at_index (r : row) (i : nat) : cell := default NaN (r !! i).

(** [df[[c1, ..., cn]]]: a KeyError when a name is not a column. *)
Definition getitem (f : frame) (cols : list string) : frame + exn :=
  match list_find (λ c, column_index f c = None) cols with
  | Some (_, c) => inr (KeyError c)
  | None =>
      let idx := omap (column_index f) cols in
      inl {| columns := cols;
             rows := (λ r, at_index r <$> idx) <$> rows f |}
  end.

(** [df[c]]: the cells of one column. *)
Definition column (f : frame) (c : string) : list cell + exn :=
  match column_index f c with
  | Some i => inl ((λ r, at_index r i) <$> rows f)
  | None => inr (KeyError c)
  end.

(** [df.drop_duplicates()]: the first of each group of equal rows is
    kept, in order; missing cells compare equal. *)
Fixpoint keep_first (seen : list row) (l : list row) : list row :=
  match l with
  | [] => []
  | r :: l =>
      if decide (r ∈ seen) then keep_first seen l
      else r :: keep_first (r :: seen) l
  end.

Definition drop_duplicates (f : frame) : frame :=
  {| columns := columns f; rows := keep_first [] (rows f) |}.

(** [str(x)] of a cell, as [astype(str)] applies it to every element. *)
Definition py_str (c : cell) : string :=
  match c with
  | NaN => "nan"
  | Str s => s
  | Int z => pretty z
  | Flt z => pretty z +:+ ".0"
  end.

Definition astype_str (col : list cell) : list string := py_str <$> col.

(** [a + '_' + b] on two columns of strings. *)
Definition join_columns (a b : list string) : list string :=
  zip_with (λ x y, x +:+ "_" +:+ y) a b.

(** [df[c] = values]: a new last column. *)
Definition assign (f : frame) (c : string) (vals : list string) : frame :=
  {| columns := (columns f ++ [c])%list;
     rows := zip_with (λ r v, (r ++ [Str v])%list) (rows f) vals |}.

Definition measurement_columns : list string :=
  ["stationid"; "timestamp"; "temperature"; "groundtemperature";
   "feeltemperature"; "windgusts"; "windspeedBft"; "humidity";
   "precipitation"; "sunpower"].

Definition station_columns : list string :=
  ["stationid"; "stationname"; "lat"; "lon"; "regio"].

(** ** The SQLite store *)

Record foreign_key := ForeignKey {
  fk_column : string;
  fk_parent : string;
  fk_parent_column : string;
  fk_on_delete_cascade : bool }.

Record table_def := TableDef {
  t_columns : list (string * string);     (* name, declared type *)
  t_primary_key : option string;
  t_not_null : list string;
  t_foreign_keys : list foreign_key }.

Record table := Table { t_def : table_def; t_rows : list row }.

Record index := Index {
  i_table : string;
  i_columns : list string;
  i_unique : bool }.

(** The catalogue of one database file and the rows of its tables. *)
Record database := Database {
  tables : gmap string table;
  indexes : gmap string index }.

#[global] Instance foreign_key_eq_dec : EqDecision foreign_key.
Proof. solve_decision. Defined.

#[global] Instance table_def_eq_dec : EqDecision table_def.
Proof. solve_decision. Defined.

#[global] Instance table_eq_dec : EqDecision table.
Proof. solve_decision. Defined.

#[global] Instance index_eq_dec : EqDecision index.
Proof. solve_decision. Defined.

#[global] Instance database_eq_dec : EqDecision database.
Proof. solve_decision. Defined.

(** A file that does not exist yet opens as an empty database. *)
Definition no_database : database := {| tables := ∅; indexes := ∅ |}.

(** [sqlite3.connect]: foreign keys are not enforced until the pragma
    is run on the connection. *)
Record connection := Connection { foreign_keys : bool }.

Definition connect : connection := {| foreign_keys := false |}.

Definition pragma_foreign_keys_on (conn : connection) : connection :=
  {| foreign_keys := true |}.

Definition is_null (c : cell) : bool :=
  match c with NaN => true | _ => false end.

(** SQL equality of two stored values; NULL equals nothing. *)
Definition sql_eqb (a b : cell) : bool :=
  match a, b with
  | Str s, Str s' => bool_decide (s = s')
  | (Int z | Flt z), (Int z' | Flt z') => bool_decide (z = z')
  | _, _ => false
  end.

(** What a column of declared type [ty] keeps of a bound value. *)
Definition affinity (ty : string) (c : cell) : cell :=
  if decide (ty = "TEXT") then
    match c with NaN => NaN | _ => Str (py_str c) end
  else c.

Definition column_names (d : table_def) : list string := (t_columns d).*1.

(** The value of column [c] in a stored row. *)
Definition field (d : table_def) (r : row) (c : string) : cell :=
  match position (column_names d) c with
  | Some i => at_index r i
  | None => NaN
  end.

(** The row [INSERT INTO t (fcols) VALUES (r)] stores: columns the
    statement does not name are NULL. *)
Definition bind_row (d : table_def) (fcols : list string) (r : row) : row :=
  (λ '(c, ty), affinity ty
     match position fcols c with
     | Some i => at_index r i
     | None => NaN
     end) <$> t_columns d.

(** The column lists that must be unique in a table: its primary key
    and its unique indexes. *)
Definition unique_keys (db : database) (name : string) (d : table_def)
  : list (list string) :=
  (match t_primary_key d with Some c => [[c]] | None => [] end ++
   (i_columns <$>
      filter (λ i, i_table i = name ∧ i_unique i = true)
             ((map_to_list (indexes db)).*2)))%list.

Definition same_key (d : table_def) (key : list string) (a b : row) : bool :=
  forallb (λ c, sql_eqb (field d a c) (field d b c)) key.

Definition unique_conflict (d : table_def) (old : list row) (new : row)
    (key : list string) : bool :=
  existsb (same_key d key new) old.

Definition violation (keys : list (list string)) (d : table_def)
    (old : list row) (new : row) : option exn :=
  if existsb (λ c, is_null (field d new c)) (t_not_null d)
  then Some (IntegrityError "NOT NULL constraint failed")
  else if existsb (unique_conflict d old new) keys
  then Some (IntegrityError "UNIQUE constraint failed")
  else None.

(** [cursor.executemany(INSERT ...)]: the rows go in one by one and the
    first one that violates a constraint raises. *)
Fixpoint executemany (keys : list (list string)) (d : table_def)
    (old new : list row) : list row + exn :=
  match new with
  | [] => inl old
  | r :: new =>
      match violation keys d old r with
      | Some e => inr e
      | None => executemany keys d (old ++ [r])%list new
      end
  end.

(** ** Effects: state and exceptions *)

(** A computation reads and writes a state and either returns or
    raises; what it wrote before raising stays written. *)
Definition St (S A : Type) : Type := S → S * (A + exn).

Section monad.
Context {S : Type}.

Definition ret {A} (a : A) : St S A := λ s, (s, inl a).

Definition bind {A B} (m : St S A) (k : A → St S B) : St S B :=
  λ s, match m s with
       | (s', inl a) => k a s'
       | (s', inr e) => (s', inr e)
       end.

Definition raise {A} (e : exn) : St S A := λ s, (s, inr e).

Definition try_except {A} (m : St S A) (handler : exn → St S A) : St S A :=
  λ s, match m s with
       | (s', inr e) => handler e s'
       | r => r
       end.

Definition get : St S S := λ s, (s, inl s).

Definition put (s : S) : St S unit := λ _, (s, inl tt).

Definition lift {A} (r : A + exn) : St S A :=
  match r with inl a => ret a | inr e => raise e end.

Definition when (b : bool) (m : St S unit) : St S unit :=
  if b then m else ret tt.
End monad.

Declare Scope py_scope.
Delimit Scope py_scope with py.
Notation "x <- m ;; k" := (bind m (λ x, k))
  (at level 100, m at next level, right associativity) : py_scope.
Notation "m ;; k" := (bind m (λ _, k))
  (at level 100, right associativity) : py_scope.
Local Open Scope py_scope.

(** Statements run against the database; the methods of the client run
    against the database and the log. *)
Abbreviation SQL := (St database).

Record world := World { store : database; logged : list log_line }.

#[global] Instance world_eq_dec : EqDecision world.
Proof. solve_decision. Defined.

Abbreviation M := (St world).

Definition logger (l : level) (s : string) : M unit :=
  λ w, ({| store := store w; logged := (logged w ++ [Log l s])%list |}, inl tt).

(** Running a statement, or a pandas call, on a connection: it acts on
    the database and logs nothing. *)
Definition execute {A} (c : SQL A) : M A :=
  λ w, let '(db, r) := c (store w) in
       ({| store := db; logged := logged w |}, r).

(** ** SQL statements *)

Definition has_table (name : string) : SQL bool :=
  db <- get;; ret (bool_decide (is_Some (tables db !! name))).

Definition add_table (db : database) (name : string) (d : table_def) : database :=
  {| tables := <[name := {| t_def := d; t_rows := [] |}]> (tables db);
     indexes := indexes db |}.

(** [CREATE TABLE name (...)]. *)
Definition create_table (name : string) (d : table_def) : SQL unit :=
  db <- get;;
  if decide (is_Some (tables db !! name))
  then raise (OperationalError ("table " +:+ name +:+ " already exists"))
  else if decide (is_Some (indexes db !! name))
  then raise (OperationalError ("there is already an index named " +:+ name))
  else if decide (NoDup (column_names d))
  then put (add_table db name d)
  else raise (OperationalError "duplicate column name").

(** [CREATE TABLE IF NOT EXISTS name (...)]. *)
Definition create_table_if_not_exists (name : string) (d : table_def) : SQL unit :=
  b <- has_table name;;
  if b then ret tt else create_table name d.

Definition has_duplicate (d : table_def) (key : list string) (rs : list row) : bool :=
  existsb (λ '(i, r), unique_conflict d (take i rs) r key) (imap pair rs).

(** [CREATE [UNIQUE] INDEX IF NOT EXISTS name ON tbl (cols)]. *)
Definition create_index_if_not_exists (name : string) (unique : bool)
    (tbl : string) (cols : list string) : SQL unit :=
  db <- get;;
  match tables db !! tbl with
  | None => raise (OperationalError ("no such table: " +:+ tbl))
  | Some t =>
      if decide (is_Some (tables db !! name))
      then raise (OperationalError ("there is already a table named " +:+ name))
      else if decide (is_Some (indexes db !! name))
      then ret tt
      else
        match list_find (λ c, c ∉ column_names (t_def t)) cols with
        | Some (_, c) =>
            raise (OperationalError ("table has no column named " +:+ c))
        | None =>
            if unique && has_duplicate (t_def t) cols (t_rows t)
            then raise (IntegrityError "UNIQUE constraint failed")
            else put
                   {| tables := tables db;
                      indexes := <[name := {| i_table := tbl; i_columns := cols;
                                              i_unique := unique |}]> (indexes db) |}
        end
  end.

(** The rows of a child table that reference a row of the dropped
    parent through the foreign key [fk]. *)
Definition references (fk : foreign_key) (child parent : table) (r : row) : bool :=
  existsb (λ p, sql_eqb (field (t_def child) r (fk_column fk))
                        (field (t_def parent) p (fk_parent_column fk)))
          (t_rows parent).

Definition cascade (name : string) (parent child : table) : table + exn :=
  foldr (λ fk acc,
           match acc with
           | inr e => inr e
           | inl t =>
               if decide (fk_parent fk = name) then
                 if fk_on_delete_cascade fk
                 then inl {| t_def := t_def t;
                             t_rows := filter (λ r, references fk t parent r = false)
                                              (t_rows t) |}
                 else if existsb (references fk t parent) (t_rows t)
                 then inr (IntegrityError "FOREIGN KEY constraint failed")
                 else inl t
               else inl t
           end)
        (inl child) (t_foreign_keys (t_def child)).

Fixpoint cascade_all (name : string) (parent : table)
    (l : list (string * table)) : list (string * table) + exn :=
  match l with
  | [] => inl []
  | (n, t) :: l =>
      match cascade name parent t, cascade_all name parent l with
      | inl t', inl l' => inl ((n, t') :: l')
      | inr e, _ | _, inr e => inr e
      end
  end.

(** [DROP TABLE name]: the table goes with its indexes.  On a connection
    that enforces foreign keys its rows are deleted first, and that
    delete acts on the tables that reference it (followed one level,
    which is all this program's schema has). *)
Definition drop_table (conn : connection) (name : string) : SQL unit :=
  db <- get;;
  match tables db !! name with
  | None => raise (OperationalError ("no such table: " +:+ name))
  | Some parent =>
      let others := delete name (tables db) in
      others <- (if foreign_keys conn
                 then l <- lift (cascade_all name parent (map_to_list others));;
                      ret (list_to_map l)
                 else ret others);;
      put {| tables := others;
             indexes := filter (λ '(_, i), i_table i ≠ name) (indexes db) |}
  end.

(** ** pandas: DataFrame.to_sql on a sqlite3 connection *)

Inductive if_exists := replace | append.

Definition sql_type (dtypes : gmap string string) (f : frame) (c : string) : string :=
  match dtypes !! c with
  | Some ty => ty
  | None =>
      match column f c with
      | inl cells =>
          match infer_dtype cells with
          | int64 => "INTEGER"
          | float64 => "REAL"
          | object => "TEXT"
          end
      | inr _ => "TEXT"
      end
  end.

(** The table pandas creates for a frame: its columns with their types,
    and no key or constraint ([index=False]). *)
Definition pandas_table (dtypes : gmap string string) (f : frame) : table_def :=
  {| t_columns := (λ c, (c, sql_type dtypes f c)) <$> columns f;
     t_primary_key := None;
     t_not_null := [];
     t_foreign_keys := [] |}.

(** [SQLTable.insert]: one [executemany] of a plain INSERT inside
    [run_transaction], which rolls back and re-raises when a row fails.
    Foreign keys are not consulted: the program inserts only through the
    connection of [store_data], which never enforces them. *)
Definition insert (name : string) (f : frame) : SQL unit :=
  db <- get;;
  match tables db !! name with
  | None => raise (OperationalError ("no such table: " +:+ name))
  | Some t =>
      let d := t_def t in
      match list_find (λ c, c ∉ column_names d) (columns f) with
      | Some (_, c) =>
          raise (OperationalError ("table " +:+ name +:+ " has no column named " +:+ c))
      | None =>
          match executemany (unique_keys db name d) d (t_rows t)
                            (bind_row d (columns f) <$> rows f) with
          | inr e => raise e
          | inl rs =>
              put {| tables := <[name := {| t_def := d; t_rows := rs |}]> (tables db);
                     indexes := indexes db |}
          end
      end
  end.

Definition to_sql (f : frame) (name : string) (conn : connection)
    (mode : if_exists) (dtypes : gmap string string) : SQL unit :=
  b <- has_table name;;
  (if b then
     match mode with
     | replace => drop_table conn name;; create_table name (pandas_table dtypes f)
     | append => ret tt
     end
   else create_table name (pandas_table dtypes f));;
  insert name f.

(** ** BuienradarClient *)

Definition stations_dtype : gmap string string :=
  list_to_map [("stationid", "TEXT"); ("stationname", "TEXT"); ("lat", "REAL");
               ("lon", "REAL"); ("regio", "TEXT")].

Definition measurements_dtype : gmap string string :=
  list_to_map [("measurementid", "TEXT"); ("stationid", "TEXT"); ("timestamp", "TEXT");
               ("temperature", "REAL"); ("groundtemperature", "REAL");
               ("feeltemperature", "REAL"); ("windgusts", "REAL");
               ("windspeedBft", "INTEGER"); ("humidity", "REAL");
               ("precipitation", "REAL"); ("sunpower", "REAL")].

(** What the feed's server answers: an exception out of [requests.get],
    [raise_for_status] or [response.json], or the parsed document. *)
Inductive response :=
| Failed (e : exn)
| Json (data : gmap string (gmap string (list record))).

Definition subscript {V} (d : gmap string V) (k : string) : V + exn :=
  match d !! k with Some v => inl v | None => inr (KeyError k) end.

Definition fetch_weather_data (resp : response) : M (option (list record)) :=
  try_except
    (logger INFO "Fetching weather data from Buienradar API...";;
     data <- lift (match resp with Failed e => inr e | Json data => inl data end);;
     actual <- lift (subscript data "actual");;
     station_measurements <- lift (subscript actual "stationmeasurements");;
     logger INFO ("Successfully fetched data for "
                  +:+ pretty (length station_measurements) +:+ " stations");;
     ret (Some station_measurements))
    (λ e,
       match e with
       | RequestException _ =>
           logger ERROR ("Error fetching weather data: " +:+ describe e);; ret None
       | KeyError _ =>
           logger ERROR ("Unexpected data structure: " +:+ describe e);; ret None
       | _ =>
           logger ERROR ("Unexpected error: " +:+ describe e);; ret None
       end).

(** [not raw_data]: None and the empty list are false. *)
Definition falsy (raw_data : option (list record)) : bool :=
  match raw_data with
  | None | Some [] => true
  | Some (_ :: _) => false
  end.

Definition process_data (raw_data : option (list record))
  : M (option frame * option frame) :=
  try_except
    (if falsy raw_data then ret (None, None)
     else
       (* raw_data is a list with at least one record here *)
       let data := DataFrame (default [] raw_data) in
       projected <- lift (getitem data measurement_columns);;
       let measurements := drop_duplicates projected in
       sid <- lift (column measurements "stationid");;
       ts <- lift (column measurements "timestamp");;
       let measurements :=
         assign measurements "measurementid"
                (join_columns (astype_str sid) (astype_str ts)) in
       projected <- lift (getitem data station_columns);;
       let stations := drop_duplicates projected in
       logger INFO ("Processed " +:+ pretty (len measurements)
                    +:+ " measurements and " +:+ pretty (len stations)
                    +:+ " stations");;
       ret (Some measurements, Some stations))
    (λ e, logger ERROR ("Error processing data: " +:+ describe e);;
          ret (None, None)).

Definition stations_table : table_def :=
  {| t_columns := [("stationid", "TEXT"); ("stationname", "TEXT"); ("lat", "REAL");
                   ("lon", "REAL"); ("regio", "TEXT")];
     t_primary_key := Some "stationid";
     t_not_null := [];
     t_foreign_keys := [] |}.

Definition measurements_table : table_def :=
  {| t_columns := [("measurementid", "TEXT"); ("stationid", "TEXT");
                   ("timestamp", "TEXT"); ("temperature", "REAL");
                   ("groundtemperature", "REAL"); ("feeltemperature", "REAL");
                   ("windgusts", "REAL"); ("windspeedBft", "INTEGER");
                   ("humidity", "REAL"); ("precipitation", "REAL");
                   ("sunpower", "REAL")];
     t_primary_key := Some "measurementid";
     t_not_null := ["stationid"; "timestamp"];
     t_foreign_keys :=
       [{| fk_column := "stationid"; fk_parent := "stations";
           fk_parent_column := "stationid"; fk_on_delete_cascade := true |}] |}.

Definition setup_database : M unit :=
  try_except
    (let conn := pragma_foreign_keys_on connect in
     execute (create_table_if_not_exists "stations" stations_table);;
     execute (create_table_if_not_exists "measurements" measurements_table);;
     execute (create_index_if_not_exists "uq_measurements_stationid_timestamp" true
                "measurements" ["stationid"; "timestamp"]);;
     execute (create_index_if_not_exists "idx_measurements_stationid" false
                "measurements" ["stationid"]);;
     execute (create_index_if_not_exists "idx_measurements_timestamp" false
                "measurements" ["timestamp"]);;
     logger INFO "Database setup completed")
    (λ e, logger ERROR ("Error setting up database: " +:+ describe e)).

Definition store_data (measurements stations : option frame) : M unit :=
  try_except
    (let conn := connect in
     match stations with
     | Some stations =>
         when (negb (empty stations))
           (execute (to_sql stations "stations" conn replace stations_dtype);;
            logger INFO ("Stored " +:+ pretty (len stations) +:+ " stations"))
     | None => ret tt
     end;;
     match measurements with
     | Some measurements =>
         when (negb (empty measurements))
           (execute (to_sql measurements "measurements" conn append measurements_dtype);;
            logger INFO ("Stored " +:+ pretty (len measurements) +:+ " measurements"))
     | None => ret tt
     end)
    (λ e, logger ERROR ("Error storing data: " +:+ describe e)).

Definition run_collection_cycle (resp : response) : M bool :=
  try_except
    (logger INFO "Starting weather data collection cycle...";;
     raw_data <- fetch_weather_data resp;;
     if falsy raw_data then
       logger WARNING "No data fetched, skipping this cycle";;
       ret false
     else
       result <- process_data raw_data;;
       let '(measurements, stations) := result in
       match measurements, stations with
       | Some _, Some _ =>
           store_data measurements stations;;
           logger INFO "Weather data collection cycle completed successfully";;
           ret true
       | _, _ =>
           logger WARNING "Data processing failed, skipping this cycle";;
           ret false
       end)
    (λ e, logger ERROR ("Error in collection cycle: " +:+ describe e);;
          ret false).

(** ** Notions used in the statements *)

(** The cell of record [rec] in column [c] of [pd.DataFrame(raw)]. *)
Definition data_cell (raw : list record) (rec : record) (c : string) : cell :=
  promote (infer_dtype (raw_column raw c)) (raw_cell rec c).

(** [df[c]] of a row. *)
Definition frame_field (f : frame) (r : row) (c : string) : cell :=
  match column_index f c with
  | Some i => at_index r i
  | None => NaN
  end.

Definition required_columns : list string :=
  (measurement_columns ++ station_columns)%list.

(** The projection of the raw records on column names. *)
Definition project (raw : list record) (cols : list string) : list row :=
  (λ rec, data_cell raw rec <$> cols) <$> raw.

(** The derived key of a projected measurement row: its first two cells
    are [stationid] and [timestamp]. *)
Definition measurement_id (r : row) : string :=
  py_str (at_index r 0) +:+ "_" +:+ py_str (at_index r 1).

Definition normalized_measurements (raw : list record) : frame :=
  {| columns := (measurement_columns ++ ["measurementid"])%list;
     rows := (λ r, (r ++ [Str (measurement_id r)])%list)
               <$> keep_first [] (project raw measurement_columns) |}.

Definition normalized_stations (raw : list record) : frame :=
  {| columns := station_columns;
     rows := keep_first [] (project raw station_columns) |}.

Definition processed_line (m s : frame) : log_line :=
  Log INFO ("Processed " +:+ pretty (len m) +:+ " measurements and "
            +:+ pretty (len s) +:+ " stations").

Definition add_log (w : world) (l : list log_line) : world :=
  {| store := store w; logged := (logged w ++ l)%list |}.

Definition started (w : world) : world :=
  add_log w [Log INFO "Starting weather data collection cycle..."].

Definition feed (stationmeasurements : list record) : response :=
  Json {[ "actual" := {[ "stationmeasurements" := stationmeasurements ]} ]}.

Definition fresh : world := {| store := no_database; logged := [] |}.

(** The measurement row derived from one record. *)
Definition measurement_row (raw : list record) (rec : record) : row :=
  let r := data_cell raw rec <$> measurement_columns in
  (r ++ [Str (measurement_id r)])%list.

(** The record of the spec's scenario (readings as integers), and the
    same observation without its temperature. *)
Definition complete_record : record :=
  list_to_map
    [("stationid", JStr "06240"); ("timestamp", JStr "2024-01-01T10:00:00");
     ("temperature", JInt 5); ("groundtemperature", JInt 4);
     ("feeltemperature", JInt 3); ("windgusts", JInt 7); ("windspeedBft", JInt 2);
     ("humidity", JInt 80); ("precipitation", JInt 0); ("sunpower", JInt 10);
     ("stationname", JStr "Meetstation Schiphol"); ("lat", JInt 52); ("lon", JInt 4);
     ("regio", JStr "Amsterdam")].

Definition incomplete_record : record :=
  delete "temperature" (<["stationid" := JStr "06260"]> complete_record).

(** The five statements of [setup_database], in order. *)
Definition schema_script : SQL unit :=
  create_table_if_not_exists "stations" stations_table;;
  create_table_if_not_exists "measurements" measurements_table;;
  create_index_if_not_exists "uq_measurements_stationid_timestamp" true
    "measurements" ["stationid"; "timestamp"];;
  create_index_if_not_exists "idx_measurements_stationid" false
    "measurements" ["stationid"];;
  create_index_if_not_exists "idx_measurements_timestamp" false
    "measurements" ["timestamp"].

Definition setup_line (r : unit + exn) : log_line :=
  match r with
  | inl _ => Log INFO "Database setup completed"
  | inr e => Log ERROR ("Error setting up database: " +:+ describe e)
  end.

(** Running it again from where it ended changes nothing. *)
Definition idem (m : SQL unit) : Prop :=
  ∀ db db' r, m db = (db', r) → m db' = (db', r).

(** A statement with a condition under which it does nothing, which it
    establishes when it succeeds; when it fails it writes nothing. *)
Record settled (s : SQL unit) (C : database → Prop) : Prop := {
  settled_noop : ∀ db, C db → s db = (db, inl tt);
  settled_done : ∀ db db', s db = (db', inl tt) → C db';
  settled_fail : ∀ db db' e, s db = (db', inr e) → db' = db }.

Definition keeps (m : SQL unit) (C : database → Prop) : Prop :=
  ∀ db db' r, m db = (db', r) → C db → C db'.

Definition table_exists (n : string) (db : database) : Prop :=
  is_Some (tables db !! n).

Definition index_exists (n tbl : string) (db : database) : Prop :=
  is_Some (tables db !! tbl) ∧ tables db !! n = None ∧ is_Some (indexes db !! n).

(** The schema of a database: the definitions of its tables, and its
    indexes. *)
Definition schema (db : database) : gmap string table_def * gmap string index :=
  (t_def <$> tables db, indexes db).

Definition schema_indexes : gmap string index :=
  {[ "uq_measurements_stationid_timestamp" :=
       {| i_table := "measurements"; i_columns := ["stationid"; "timestamp"];
          i_unique := true |};
     "idx_measurements_stationid" :=
       {| i_table := "measurements"; i_columns := ["stationid"]; i_unique := false |};
     "idx_measurements_timestamp" :=
       {| i_table := "measurements"; i_columns := ["timestamp"]; i_unique := false |} ]}.

(** Two relations with their keys and the foreign key, the unique index
    on (stationid, timestamp) and the two secondary indexes. *)
Definition full_schema : gmap string table_def * gmap string index :=
  ({[ "stations" := stations_table; "measurements" := measurements_table ]},
   schema_indexes).

Definition setup_times (n : nat) (w : world) : world :=
  Nat.iter n (λ w, (setup_database w).1) w.

(** The two writes of [store_data], as the statements they run. *)
Definition write (f : option frame) (name : string) (mode : if_exists)
    (dtypes : gmap string string) : SQL unit :=
  match f with
  | Some f => when (negb (empty f)) (to_sql f name connect mode dtypes)
  | None => ret tt
  end.

Definition persist (measurements stations : option frame) : SQL unit :=
  write stations "stations" replace stations_dtype;;
  write measurements "measurements" append measurements_dtype.

Definition info_only (l : list log_line) : Prop := Forall (λ x, lvl x = INFO) l.

Definition write_and_log (f : option frame) (name : string) (mode : if_exists)
    (dtypes : gmap string string) : M unit :=
  match f with
  | Some f =>
      when (negb (empty f))
        (execute (to_sql f name connect mode dtypes);;
         logger INFO ("Stored " +:+ pretty (len f) +:+ " " +:+ name))
  | None => ret tt
  end.

(** A statement on table [name] leaves the other tables alone and adds
    no index. *)
Definition confined (name : string) (m : SQL unit) : Prop :=
  ∀ db db' r, m db = (db', r) →
    (∀ n, n ≠ name → tables db' !! n = tables db !! n) ∧ indexes db' ⊆ indexes db.

(** No index is named [name], or defined on the table [name]. *)
Definition no_index_on (name : string) (db : database) : Prop :=
  indexes db !! name = None ∧ ∀ n i, indexes db !! n = Some i → i_table i ≠ name.

(** The table a frame of stations is stored as. *)
Definition stored (dtypes : gmap string string) (f : frame) : table :=
  {| t_def := pandas_table dtypes f;
     t_rows := bind_row (pandas_table dtypes f) (columns f) <$> rows f |}.

(** A station row as the stations table keeps it: the three text
    columns as text, the coordinates as they are. *)
Definition stored_station (r : row) : row :=
  [affinity "TEXT" (at_index r 0); affinity "TEXT" (at_index r 1);
   at_index r 2; at_index r 3; affinity "TEXT" (at_index r 4)].

Definition stations_1 : frame :=
  {| columns := station_columns;
     rows := [[Str "06240"; Str "Schiphol"; Int 52; Int 4; Str "Amsterdam"];
              [Str "06260"; Str "De Bilt"; Int 52; Int 5; Str "Utrecht"]] |}.

Definition stations_2 : frame :=
  {| columns := station_columns;
     rows := [[Str "06260"; Str "De Bilt"; Int 52; Int 5; Str "Utrecht"];
              [Str "06280"; Str "Eelde"; Int 53; Int 6; Str "Groningen"]] |}.

Definition set_up : world := (setup_database fresh).1.

Definition measurement_rows (db : database) : list row :=
  match tables db !! "measurements" with
  | Some t => t_rows t
  | None => []
  end.

(** A later observation list: the station already stored, unchanged,
    and a station not seen before. *)
Definition new_record : record :=
  <["stationid" := JStr "06260"]> (<["stationname" := JStr "De Bilt"]> complete_record).

Definition first_cycle : world :=
  (run_collection_cycle (feed [complete_record]) set_up).1.

Definition second_batch : list record := [complete_record; new_record].

Definition first_measurements : table :=
  {| t_def := measurements_table;
     t_rows := [[Str "06240_2024-01-01T10:00:00"; Str "06240";
                 Str "2024-01-01T10:00:00"; Int 5; Int 4; Int 3; Int 7; Int 2;
                 Int 80; Int 0; Int 10]] |}.

(** One cycle's normalise-and-persist on given raw records. *)
Definition normalize_and_persist (raw_data : option (list record)) : M unit :=
  result <- process_data raw_data;;
  store_data result.1 result.2.

(** The measurements relation as [setup_database] defines it, with the
    schema's indexes. *)
Definition measurements_ready (db : database) : Prop :=
  (∃ rs, tables db !! "measurements"
           = Some {| t_def := measurements_table; t_rows := rs |})
  ∧ indexes db = schema_indexes.

Definition measurement_keys : list (list string) :=
  [["measurementid"]; ["stationid"; "timestamp"]].

(** The rows a normalised frame binds to the INSERT. *)
Definition bound_measurements (m : frame) : list row :=
  bind_row measurements_table (columns m) <$> rows m.

(** The rows of the measurements relation after appending a frame: all
    of them behind the old ones, or the old ones. *)
Definition appended (old : list row) (m : frame) : list row :=
  match executemany measurement_keys measurements_table old (bound_measurements m) with
  | inl rs => rs
  | inr _ => old
  end.

(** The measurement rows after one normalise-and-persist of [raw_data]
    on a relation holding [rs]. *)
Definition ingested (raw_data : option (list record)) (rs : list row) : list row :=
  match raw_data with
  | Some raw =>
      if decide (raw ≠ [] ∧ Forall (λ c, c ∈ all_keys raw) required_columns)
      then appended rs (normalized_measurements raw)
      else rs
  | None => rs
  end.

(** ** Further notions *)

(** The list the document carries under [actual.stationmeasurements],
    when the request succeeds and both keys are there. *)
Definition payload (resp : response) : option (list record) :=
  match resp with
  | Failed _ => None
  | Json data =>
      match data !! "actual" with
      | Some actual => actual !! "stationmeasurements"
      | None => None
      end
  end.

(** The exception a response makes the fetch meet, if any. *)
Definition fetch_failure (resp : response) : option exn :=
  match resp with
  | Failed e => Some e
  | Json data =>
      match data !! "actual" with
      | Some actual =>
          match actual !! "stationmeasurements" with
          | Some _ => None
          | None => Some (KeyError "stationmeasurements")
          end
      | None => Some (KeyError "actual")
      end
  end.

(** The line each [except] branch of the fetch logs. *)
Definition fetch_error_line (e : exn) : log_line :=
  match e with
  | RequestException _ => Log ERROR ("Error fetching weather data: " +:+ describe e)
  | KeyError _ => Log ERROR ("Unexpected data structure: " +:+ describe e)
  | _ => Log ERROR ("Unexpected error: " +:+ describe e)
  end.

Definition fetching_line : log_line :=
  Log INFO "Fetching weather data from Buienradar API...".

Definition fetched_line (sm : list record) : log_line :=
  Log INFO ("Successfully fetched data for " +:+ pretty (length sm) +:+ " stations").

(** The raw records a cycle can normalise: a non-empty list in which
    every required column occurs. *)
Definition usable (raw : list record) : Prop :=
  raw ≠ [] ∧ Forall (λ c, c ∈ all_keys raw) required_columns.

#[global] Instance usable_dec (raw : list record) : Decision (usable raw).
Proof. unfold usable. apply _. Defined.

(** The store a cycle leaves, given what the server answered. *)
Definition store_after_cycle (resp : response) (db : database) : database :=
  match payload resp with
  | Some raw =>
      if decide (usable raw)
      then (persist (Some (normalized_measurements raw))
                    (Some (normalized_stations raw)) db).1
      else db
  | None => db
  end.

(** Whether a cycle reports success. *)
Definition cycle_succeeds (resp : response) : bool :=
  match payload resp with
  | Some raw => bool_decide (usable raw)
  | None => false
  end.


(** Two observations that differ in station and in timestamp and get
    one key. *)
Definition underscore_record_1 : record :=
  <["stationid" := JStr "A_1"]> (<["timestamp" := JStr "2"]> complete_record).

Definition underscore_record_2 : record :=
  <["stationid" := JStr "A"]> (<["timestamp" := JStr "1_2"]> complete_record).

Definition has_error (l : list log_line) : Prop := ∃ text, last l = Some (Log ERROR text).

(** What the INSERT binds for a normalised measurement row. *)
Definition bind_measurement (r : row) : row :=
  bind_row measurements_table (measurement_columns ++ ["measurementid"])%list r.

(** The shape of a normalised measurement row: ten projected cells, of
    which the first two are present, and the key derived from them. *)
Definition keyed (r : row) : Prop :=
  ∃ cells, length cells = 10%nat ∧ r = (cells ++ [Str (measurement_id cells)])%list
           ∧ at_index cells 0 ≠ NaN ∧ at_index cells 1 ≠ NaN.

(** [db'] holds everything [db] holds - every table with its definition
    and its rows, every index - and what it holds besides is of the
    schema: empty stations and measurements tables, and the schema's
    indexes. *)
Definition only_adds (db db' : database) : Prop :=
  tables db ⊆ tables db'
  ∧ indexes db ⊆ indexes db'
  ∧ (∀ n t, tables db !! n = None → tables db' !! n = Some t →
            t_rows t = [] ∧ full_schema.1 !! n = Some (t_def t))
  ∧ (∀ n i, indexes db !! n = None → indexes db' !! n = Some i →
            schema_indexes !! n = Some i).

(** No two rows of [rs] agree on the columns [key], as SQLite compares
    them. *)
Definition distinct_on (key : list string) (rs : list row) : Prop :=
  ∀ i j r r', (i < j)%nat → rs !! i = Some r → rs !! j = Some r' →
              same_key measurements_table key r' r = false.

Definition distinct_pair (key : list string) (rs : list row) (i j : nat) : bool :=
  match rs !! i, rs !! j with
  | Some r, Some r' => negb (same_key measurements_table key r' r)
  | _, _ => true
  end.

#[global] Instance distinct_on_dec (key : list string) (rs : list row) :
  Decision (distinct_on key rs).
Proof.
  destruct (decide (Forall (λ j, Forall (λ i, distinct_pair key rs i j = true) (seq 0 j))
                           (seq 0 (length rs)))) as [f|n];
    [left|right]; unfold distinct_on.
  - intros i j r r' Hij Hi Hj.
    rewrite Forall_forall in f.
    assert (j ∈ seq 0 (length rs)) as Hjin
      by (apply elem_of_seq; apply lookup_lt_Some in Hj; lia).
    specialize (f j Hjin). rewrite Forall_forall in f.
    assert (i ∈ seq 0 j) as Hiin by (apply elem_of_seq; lia).
    specialize (f i Hiin). unfold distinct_pair in f. rewrite Hi, Hj in f.
    by apply negb_true_iff.
  - intros H. apply n. apply Forall_forall. intros j Hj.
    apply Forall_forall. intros i Hi. apply elem_of_seq in Hi.
    unfold distinct_pair.
    destruct (rs !! i) as [r|] eqn:Ei; [|done].
    destruct (rs !! j) as [r'|] eqn:Ej; [|done].
    apply negb_true_iff. apply (H i j); [lia|done|done].
Defined.

(** The rows of the measurements relation carry no key twice. *)
Definition keys_unique (db : database) : Prop :=
  Forall (λ key, distinct_on key (measurement_rows db)) measurement_keys.

(** The loop of [main], as far as the store goes: one cycle per answer
    of the server, one after the other. *)
Definition cycles (answers : list response) (w : world) : world :=
  foldl (λ w resp, (run_collection_cycle resp w).1) w answers.

(** Closed facts are settled by running their decision procedure. *)
Ltac evaluate := apply (bool_decide_unpack _); vm_compute; exact I.

(** * Properties of the frames *)

Lemma elem_of_all_keys (raw : list record) (c : string) :
  c ∈ all_keys raw ↔ ∃ rec, rec ∈ raw ∧ is_Some (rec !! c).
Proof.
  unfold all_keys. rewrite elem_of_union_list. split.
  - intros (X & HX & Hc). apply list_elem_of_fmap in HX as (rec & -> & Hrec).
    exists rec. split; [done|]. by apply elem_of_dom.
  - intros (rec & Hrec & Hc). exists (dom rec). split.
    + apply list_elem_of_fmap. eauto.
    + by apply elem_of_dom.
Qed.

Lemma position_Some (names : list string) (c : string) (i : nat) :
  position names c = Some i → names !! i = Some c.
Proof.
  unfold position. destruct (list_find _ names) as [[j x]|] eqn:E; [|done].
  intros [= <-]. apply list_find_Some in E as (? & -> & _). done.
Qed.

Lemma position_None (names : list string) (c : string) :
  position names c = None ↔ c ∉ names.
Proof.
  unfold position. rewrite fmap_None, list_find_None, Forall_forall. split.
  - intros H Hc. by apply (H c).
  - intros H x Hx ->. done.
Qed.

Lemma position_elem_of (names : list string) (c : string) :
  c ∈ names → ∃ i, position names c = Some i ∧ names !! i = Some c.
Proof.
  intros Hc. destruct (position names c) as [i|] eqn:E.
  - exists i. split; [done|]. by apply position_Some.
  - by apply position_None in E.
Qed.

Lemma column_index_position (f : frame) (c : string) :
  column_index f c = position (columns f) c.
Proof. reflexivity. Qed.

Lemma at_index_fmap {A} (g : A → cell) (l : list A) (i : nat) (x : A) :
  l !! i = Some x → at_index (g <$> l) i = g x.
Proof. intros H. unfold at_index. by rewrite list_lookup_fmap, H. Qed.

(** Projecting on names that are all columns. *)
Lemma getitem_ok (f : frame) (cols : list string) :
  Forall (λ c, c ∈ columns f) cols →
  getitem f cols =
    inl {| columns := cols;
           rows := (λ r, (λ c, frame_field f r c) <$> cols) <$> rows f |}.
Proof.
  intros Hall. unfold getitem.
  assert (list_find (λ c, column_index f c = None) cols = None) as ->.
  { apply list_find_None. eapply Forall_impl; [exact Hall|].
    intros c Hc Hn. by apply position_None in Hn. }
  do 2 f_equal. apply list_fmap_ext. intros _ r _.
  induction Hall as [|c cols Hc _ IH]; [done|].
  cbn. unfold frame_field at 1.
  destruct (column_index f c) as [i|] eqn:E.
  - cbn. by rewrite IH.
  - by apply position_None in E.
Qed.

Lemma getitem_missing (f : frame) (cols : list string) :
  ¬ Forall (λ c, c ∈ columns f) cols →
  ∃ c, c ∈ cols ∧ (c ∉ columns f) ∧ (getitem f cols = inr (KeyError c)).
Proof.
  intros Hn. unfold getitem.
  destruct (list_find _ cols) as [[i c]|] eqn:E.
  - apply list_find_Some in E as (Hi & Hc & _).
    exists c. split; [by eapply list_elem_of_lookup_2|]. split; [by apply position_None|done].
  - exfalso. apply Hn. apply list_find_None in E.
    eapply Forall_impl; [exact E|]. intros c Hc. cbn in Hc.
    destruct (decide (c ∈ columns f)); [done|]. exfalso. by apply Hc, position_None.
Qed.

Lemma frame_field_DataFrame (raw : list record) (rec : record) (c : string) :
  c ∈ columns (DataFrame raw) →
  frame_field (DataFrame raw)
    ((λ c, data_cell raw rec c) <$> columns (DataFrame raw)) c = data_cell raw rec c.
Proof.
  intros Hc. unfold frame_field. rewrite column_index_position.
  destruct (position_elem_of _ _ Hc) as (i & -> & Hi).
  by apply at_index_fmap.
Qed.

Lemma getitem_DataFrame (raw : list record) (cols : list string) :
  Forall (λ c, c ∈ all_keys raw) cols →
  getitem (DataFrame raw) cols = inl {| columns := cols; rows := project raw cols |}.
Proof.
  intros Hall.
  assert (Forall (λ c, c ∈ columns (DataFrame raw)) cols) as Hall'.
  { eapply Forall_impl; [exact Hall|]. intros c Hc. cbn. by apply elem_of_elements. }
  rewrite getitem_ok by done. do 2 f_equal.
  unfold project. cbn [rows DataFrame]. rewrite <- list_fmap_compose.
  apply list_fmap_ext. intros _ rec _. cbn.
  apply list_fmap_ext. intros i c Hc.
  apply (frame_field_DataFrame raw rec c).
  rewrite Forall_forall in Hall'. apply Hall'. by eapply list_elem_of_lookup_2.
Qed.

Lemma assign_joined (R : list row) (a b : row → cell) :
  zip_with (λ r v, (r ++ [Str v])%list) R
           (join_columns (astype_str (a <$> R)) (astype_str (b <$> R)))
  = (λ r, (r ++ [Str (py_str (a r) +:+ "_" +:+ py_str (b r))])%list) <$> R.
Proof. induction R as [|r R IH]; [done|]. cbn. f_equal. exact IH. Qed.

Lemma required_split (P : string → Prop) :
  Forall P required_columns ↔
  Forall P measurement_columns ∧ Forall P station_columns.
Proof. unfold required_columns. apply Forall_app. Qed.

Lemma falsy_nonempty (raw : list record) : raw ≠ [] → falsy (Some raw) = false.
Proof. by destruct raw. Qed.

(** Normalisation succeeds when every required column occurs in some
    record. *)
Lemma process_data_ok (raw : list record) (w : world) :
  raw ≠ [] →
  Forall (λ c, c ∈ all_keys raw) required_columns →
  process_data (Some raw) w =
    (add_log w [processed_line (normalized_measurements raw) (normalized_stations raw)],
     inl (Some (normalized_measurements raw), Some (normalized_stations raw))).
Proof.
  intros Hne [Hm Hs]%required_split.
  unfold process_data. rewrite falsy_nonempty by done.
  change (default [] (Some raw)) with raw.
  unfold try_except, bind at 1.
  rewrite (getitem_DataFrame raw measurement_columns Hm). cbn [lift ret].
  unfold bind at 1.
  change (column (drop_duplicates _) "stationid")
    with (@inl _ exn ((λ r, at_index r 0) <$> keep_first [] (project raw measurement_columns))).
  cbn [lift ret]. unfold bind at 1.
  change (column (drop_duplicates _) "timestamp")
    with (@inl _ exn ((λ r, at_index r 1) <$> keep_first [] (project raw measurement_columns))).
  cbn [lift ret]. unfold bind at 1.
  rewrite (getitem_DataFrame raw station_columns Hs). cbn [lift ret].
  unfold assign. cbn [rows columns drop_duplicates].
  rewrite assign_joined.
  reflexivity.
Qed.

(** Normalisation fails when a required column occurs in no record. *)
Lemma process_data_missing (raw : list record) (w : world) :
  raw ≠ [] →
  ¬ Forall (λ c, c ∈ all_keys raw) required_columns →
  ∃ c, c ∈ required_columns ∧ (c ∉ all_keys raw) ∧
       process_data (Some raw) w =
         (add_log w [Log ERROR ("Error processing data: " +:+ describe (KeyError c))],
          inl (None, None)).
Proof.
  intros Hne Hn.
  assert (∀ cols, columns (DataFrame raw) = elements (all_keys raw)) as Hcols by done.
  assert (∀ cols, Forall (λ c, c ∈ columns (DataFrame raw)) cols ↔
                  Forall (λ c, c ∈ all_keys raw) cols) as Hiff.
  { intros cols. apply Forall_iff. intros c. cbn. apply elem_of_elements. }
  unfold process_data. rewrite falsy_nonempty by done.
  change (default [] (Some raw)) with raw.
  destruct (decide (Forall (λ c, c ∈ all_keys raw) measurement_columns)) as [Hm|Hm].
  - assert (¬ Forall (λ c, c ∈ columns (DataFrame raw)) station_columns) as Hs.
    { rewrite Hiff. intros Hs. apply Hn, required_split. done. }
    apply getitem_missing in Hs as (c & Hc & Hnc & Hget).
    exists c. split; [apply elem_of_app; by right|].
    split; [by rewrite <- elem_of_elements|].
    unfold try_except, bind at 1.
    rewrite (getitem_DataFrame raw measurement_columns Hm). cbn [lift ret].
    unfold bind at 1.
    change (column (drop_duplicates _) "stationid")
      with (@inl _ exn ((λ r, at_index r 0) <$> keep_first [] (project raw measurement_columns))).
    cbn [lift ret]. unfold bind at 1.
    change (column (drop_duplicates _) "timestamp")
      with (@inl _ exn ((λ r, at_index r 1) <$> keep_first [] (project raw measurement_columns))).
    cbn [lift ret]. unfold bind at 1.
    rewrite Hget. reflexivity.
  - rewrite <- Hiff in Hm.
    apply getitem_missing in Hm as (c & Hc & Hnc & Hget).
    exists c. split; [apply elem_of_app; by left|].
    split; [by rewrite <- elem_of_elements|].
    unfold try_except, bind at 1. rewrite Hget. reflexivity.
Qed.

Lemma add_log_nil (w : world) : add_log w [] = w.
Proof. destruct w. unfold add_log. cbn. by rewrite app_nil_r. Qed.

Lemma add_log_app (w : world) (l l' : list log_line) :
  add_log (add_log w l) l' = add_log w (l ++ l').
Proof. unfold add_log. cbn. by rewrite app_assoc. Qed.

Lemma logger_add_log (lv : level) (s : string) (w : world) :
  logger lv s w = (add_log w [Log lv s], inl tt).
Proof. reflexivity. Qed.

(** The fetch stage never raises and never writes the store. *)
Lemma fetch_weather_data_spec (resp : response) (w : world) :
  ∃ l r, fetch_weather_data resp w = (add_log w l, inl r).
Proof.
  unfold fetch_weather_data, try_except, bind at 1.
  rewrite logger_add_log. unfold bind at 1.
  destruct resp as [e|data]; cbn [lift raise ret].
  - destruct e; unfold bind; rewrite logger_add_log, add_log_app; cbn [ret]; eauto.
  - unfold bind at 1, subscript.
    destruct (data !! "actual") as [actual|]; cbn [lift raise ret].
    + unfold bind at 1.
      destruct (actual !! "stationmeasurements") as [sm|]; cbn [lift raise ret].
      * unfold bind. rewrite logger_add_log, add_log_app. cbn [ret]. eauto.
      * unfold bind. rewrite logger_add_log, add_log_app. cbn [ret]. eauto.
    + unfold bind. rewrite logger_add_log, add_log_app. cbn [ret]. eauto.
Qed.

(** The normalise stage never raises and never writes the store; it
    returns both outputs or neither. *)
Lemma process_data_spec (raw_data : option (list record)) (w : world) :
  ∃ l r, process_data raw_data w = (add_log w l, inl r) ∧
         (r = (None, None) ∨ ∃ m s, r = (Some m, Some s)).
Proof.
  destruct (falsy raw_data) eqn:Hf.
  - exists [], (None, None). rewrite add_log_nil. split; [|by left].
    unfold process_data. rewrite Hf. reflexivity.
  - destruct raw_data as [[|rec raw]|]; try done.
    destruct (decide (Forall (λ c, c ∈ all_keys (rec :: raw)) required_columns)) as [H|H].
    + eexists _, _. split; [apply process_data_ok; done|]. right. eauto.
    + destruct (process_data_missing (rec :: raw) w) as (c & _ & _ & ->); try done.
      eexists _, _. split; [done|]. by left.
Qed.

(** The persist stage never raises. *)
Lemma store_data_returns (m s : option frame) (w : world) :
  (store_data m s w).2 = inl tt.
Proof.
  unfold store_data, try_except.
  match goal with |- context [match ?x with _ => _ end] => destruct x as [w' [[]|e]] end;
    reflexivity.
Qed.

(** * The collection cycle *)

(** C7: normalising an absent or an empty input returns the absent pair,
    and persisting the absent pair returns normally and leaves the world
    (store and log) exactly as it was. *)
Theorem empty_input_is_a_no_op (w : world) :
  process_data None w = (w, inl (None, None)) ∧
  process_data (Some []) w = (w, inl (None, None)) ∧
  store_data None None w = (w, inl tt).
Proof. repeat split. Qed.

Lemma cycle_skips_on_no_data (resp : response) (w w1 : world)
    (raw_data : option (list record)) :
  fetch_weather_data resp (started w) = (w1, inl raw_data) →
  falsy raw_data = true →
  run_collection_cycle resp w =
    (add_log w1 [Log WARNING "No data fetched, skipping this cycle"], inl false).
Proof.
  intros Hfetch Hf. unfold run_collection_cycle, try_except, bind at 1.
  rewrite logger_add_log. fold (started w). unfold bind at 1.
  rewrite Hfetch, Hf. reflexivity.
Qed.

Lemma cycle_skips_on_failed_processing (resp : response) (w w1 w2 : world)
    (raw : list record) :
  fetch_weather_data resp (started w) = (w1, inl (Some raw)) →
  process_data (Some raw) w1 = (w2, inl (None, None)) →
  ∃ l, run_collection_cycle resp w = (add_log w2 l, inl false).
Proof.
  intros Hfetch Hproc. unfold run_collection_cycle, try_except, bind at 1.
  rewrite logger_add_log. fold (started w). unfold bind at 1.
  rewrite Hfetch. destruct raw as [|rec raw].
  - injection Hproc as <-. by eexists.
  - cbn [falsy]. unfold bind at 1. rewrite Hproc. by eexists.
Qed.

(** C6: when the fetch stage returns None, or the normalise stage returns
    (None, None), the cycle returns False and the store is exactly the
    store the cycle started with. *)
Theorem failed_stage_leaves_store_untouched (resp : response) (w : world) :
  (fetch_weather_data resp (started w)).2 = inl None ∨
  (∃ raw w1, fetch_weather_data resp (started w) = (w1, inl (Some raw)) ∧
             (process_data (Some raw) w1).2 = inl (None, None)) →
  (run_collection_cycle resp w).2 = inl false ∧
  store (run_collection_cycle resp w).1 = store w.
Proof.
  destruct (fetch_weather_data_spec resp (started w)) as (l & r & Hfetch).
  intros [Hnone | (raw & w1 & Hsome & Hproc)].
  - rewrite Hfetch in Hnone. cbn in Hnone. injection Hnone as ->.
    by rewrite (cycle_skips_on_no_data _ _ _ _ Hfetch).
  - rewrite Hfetch in Hsome. injection Hsome as <- ->.
    destruct (process_data_spec (Some raw) (add_log (started w) l))
      as (l' & r' & Hp & _).
    rewrite Hp in Hproc. cbn in Hproc. injection Hproc as ->.
    destruct (cycle_skips_on_failed_processing _ _ _ _ _ Hfetch Hp) as (l'' & ->).
    done.
Qed.

(** C10: a fetch that returns the empty list is handled as a fetch that
    returns None: after the lines of the fetch itself the cycle logs the
    one warning, returns False, and the store is unchanged; no line of
    the normalise or persist stage is logged. *)
Theorem empty_fetch_is_skipped_like_a_failure (resp : response) (w w1 : world)
    (raw_data : option (list record)) :
  fetch_weather_data resp (started w) = (w1, inl raw_data) →
  raw_data = Some [] ∨ raw_data = None →
  run_collection_cycle resp w =
    (add_log w1 [Log WARNING "No data fetched, skipping this cycle"], inl false)
  ∧ store (run_collection_cycle resp w).1 = store w.
Proof.
  intros Hfetch Hraw.
  assert (falsy raw_data = true) as Hf by (by destruct Hraw as [-> | ->]).
  rewrite (cycle_skips_on_no_data _ _ _ _ Hfetch Hf). split; [done|].
  destruct (fetch_weather_data_spec resp (started w)) as (l & r & Hfetch').
  rewrite Hfetch' in Hfetch. by injection Hfetch as <- _.
Qed.

Lemma failed_stage_leaves_store_untouched_witness :
  (run_collection_cycle (Failed (RequestException "timeout")) fresh).2 = inl false ∧
  store (run_collection_cycle (Failed (RequestException "timeout")) fresh).1 = store fresh.
Proof.
  apply (failed_stage_leaves_store_untouched (Failed (RequestException "timeout")) fresh).
  left. reflexivity.
Defined.

Lemma empty_fetch_is_skipped_like_a_failure_witness :
  run_collection_cycle (feed []) fresh =
    ({| store := no_database;
        logged := [Log INFO "Starting weather data collection cycle...";
                   Log INFO "Fetching weather data from Buienradar API...";
                   Log INFO "Successfully fetched data for 0 stations";
                   Log WARNING "No data fetched, skipping this cycle"] |},
     inl false)
  ∧ store (run_collection_cycle (feed []) fresh).1 = store fresh.
Proof.
  apply (empty_fetch_is_skipped_like_a_failure (feed []) fresh
           (fetch_weather_data (feed []) (started fresh)).1 (Some [])).
  - reflexivity.
  - left. reflexivity.
Defined.

(** * The normaliser *)

Lemma elem_of_keep_first (seen l : list row) (r : row) :
  r ∈ keep_first seen l ↔ r ∈ l ∧ r ∉ seen.
Proof.
  revert seen. induction l as [|x l IH]; intros seen; cbn.
  - split; [by intros ?%elem_of_nil | by intros [?%elem_of_nil _]].
  - destruct (decide (x ∈ seen)) as [Hx|Hx].
    + rewrite IH, elem_of_cons. split; [tauto|]. intros [[->|?] ?]; tauto.
    + rewrite !elem_of_cons, IH, elem_of_cons. split.
      * intros [->|[? ?]]; tauto.
      * intros [[->|?] ?]; [tauto|]. destruct (decide (r = x)); tauto.
Qed.

Lemma elem_of_drop_duplicates (l : list row) (r : row) :
  r ∈ keep_first [] l ↔ r ∈ l.
Proof. rewrite elem_of_keep_first. split; [tauto|]. intros ?. split; [done|]. apply not_elem_of_nil. Qed.

Lemma keep_first_nonempty (l : list row) : l ≠ [] → keep_first [] l ≠ [].
Proof.
  destruct l as [|r l]; [done|]. intros _. cbn.
  destruct (decide (r ∈ [])) as [H|_]; [by apply elem_of_nil in H|done].
Qed.

Lemma rows_normalized_measurements (raw : list record) (r : row) :
  r ∈ rows (normalized_measurements raw) ↔ ∃ rec, rec ∈ raw ∧ r = measurement_row raw rec.
Proof.
  cbn [rows normalized_measurements]. rewrite list_elem_of_fmap. split.
  - intros (r0 & -> & Hr0). rewrite elem_of_drop_duplicates in Hr0.
    unfold project in Hr0.
    apply list_elem_of_fmap in Hr0 as (rec & -> & Hrec). by exists rec.
  - intros (rec & Hrec & ->). eexists. split; [reflexivity|].
    rewrite elem_of_drop_duplicates. apply list_elem_of_fmap. by exists rec.
Qed.

(** When normalisation returns frames, they are the normalised ones. *)
Lemma process_data_Some (raw : list record) (w : world) (m : frame) (s : option frame) :
  (process_data (Some raw) w).2 = inl (Some m, s) →
  raw ≠ [] ∧ Forall (λ c, c ∈ all_keys raw) required_columns ∧
  m = normalized_measurements raw ∧ s = Some (normalized_stations raw).
Proof.
  intros H. destruct raw as [|rec raw]; [done|].
  destruct (decide (Forall (λ c, c ∈ all_keys (rec :: raw)) required_columns)) as [Hall|Hn].
  - rewrite process_data_ok in H by done. by injection H as <- <-.
  - destruct (process_data_missing (rec :: raw) w) as (c & _ & _ & Heq); try done.
    by rewrite Heq in H.
Qed.

Lemma data_cell_text (raw : list record) (rec : record) (c s : string) :
  rec !! c = Some (JStr s) → data_cell raw rec c = Str s.
Proof.
  intros H. unfold data_cell, raw_cell. rewrite H.
  by destruct (infer_dtype _).
Qed.

Lemma data_cell_integer (raw : list record) (rec : record) (c : string) (z : Z) :
  (∀ rec', rec' ∈ raw → ∃ z', rec' !! c = Some (JInt z')) →
  rec !! c = Some (JInt z) → data_cell raw rec c = Int z.
Proof.
  intros Hall H. unfold data_cell, raw_cell. rewrite H.
  assert (Forall (λ x, is_text x = false ∧ is_float x = false) (raw_column raw c)) as Hcol.
  { apply Forall_forall. unfold raw_column.
    intros x (rec' & -> & Hrec')%list_elem_of_fmap.
    destruct (Hall rec' Hrec') as [z' Hz']. unfold raw_cell. by rewrite Hz'. }
  unfold infer_dtype.
  assert (existsb is_text (raw_column raw c) = false
          ∧ existsb is_float (raw_column raw c) = false) as [-> ->]; [|done].
  induction Hcol as [|x l [Hx1 Hx2] _ [IH1 IH2]]; [done|].
  cbn. by rewrite Hx1, Hx2, IH1, IH2.
Qed.

(** C5: in the measurements that normalisation returns, the
    measurementid of every row is the string coercion of its stationid,
    an underscore, and the string coercion of its timestamp; every raw
    record has such a row; two records of the input with the same
    stationid and timestamp get the same measurementid; and a record with
    stationid "06240" and timestamp "2024-01-01T10:00:00" gets
    "06240_2024-01-01T10:00:00".  Text is coerced to itself; an integer
    stationid, in a feed whose stationids are all integers, to its
    decimal digits. *)
Theorem measurement_id_is_station_underscore_timestamp
    (raw : list record) (w : world) (m : frame) (s : option frame) :
  (process_data (Some raw) w).2 = inl (Some m, s) →
  (∀ r, r ∈ rows m →
        frame_field m r "measurementid" =
          Str (py_str (frame_field m r "stationid") +:+ "_"
               +:+ py_str (frame_field m r "timestamp")))
  ∧ (∀ rec, rec ∈ raw →
        ∃ r, r ∈ rows m ∧
             frame_field m r "stationid" = data_cell raw rec "stationid" ∧
             frame_field m r "timestamp" = data_cell raw rec "timestamp")
  ∧ (∀ rec rec' r r',
        rec ∈ raw → rec' ∈ raw →
        rec !! "stationid" = rec' !! "stationid" →
        rec !! "timestamp" = rec' !! "timestamp" →
        r ∈ rows m → r' ∈ rows m →
        frame_field m r "stationid" = data_cell raw rec "stationid" →
        frame_field m r "timestamp" = data_cell raw rec "timestamp" →
        frame_field m r' "stationid" = data_cell raw rec' "stationid" →
        frame_field m r' "timestamp" = data_cell raw rec' "timestamp" →
        frame_field m r "measurementid" = frame_field m r' "measurementid")
  ∧ (∀ rec sid ts,
        rec ∈ raw →
        rec !! "stationid" = Some (JStr sid) →
        rec !! "timestamp" = Some (JStr ts) →
        ∃ r, r ∈ rows m ∧ frame_field m r "stationid" = Str sid ∧
             frame_field m r "timestamp" = Str ts ∧
             frame_field m r "measurementid" = Str (sid +:+ "_" +:+ ts))
  ∧ (∀ rec z ts,
        rec ∈ raw →
        (∀ rec', rec' ∈ raw → ∃ z', rec' !! "stationid" = Some (JInt z')) →
        rec !! "stationid" = Some (JInt z) →
        rec !! "timestamp" = Some (JStr ts) →
        ∃ r, r ∈ rows m ∧
             frame_field m r "measurementid" = Str (pretty z +:+ "_" +:+ ts))
  ∧ (∀ rec,
        rec ∈ raw →
        rec !! "stationid" = Some (JStr "06240") →
        rec !! "timestamp" = Some (JStr "2024-01-01T10:00:00") →
        ∃ r, r ∈ rows m ∧
             frame_field m r "measurementid" = Str "06240_2024-01-01T10:00:00").
Proof.
  intros (Hne & Hall & -> & ->)%process_data_Some.
  assert (∀ r, r ∈ rows (normalized_measurements raw) →
               frame_field (normalized_measurements raw) r "measurementid" =
               Str (py_str (frame_field (normalized_measurements raw) r "stationid")
                    +:+ "_" +:+
                    py_str (frame_field (normalized_measurements raw) r "timestamp")))
    as Hid.
  { intros r (rec & _ & ->)%rows_normalized_measurements. reflexivity. }
  assert (∀ rec, rec ∈ raw →
            measurement_row raw rec ∈ rows (normalized_measurements raw) ∧
            frame_field (normalized_measurements raw) (measurement_row raw rec) "stationid"
              = data_cell raw rec "stationid" ∧
            frame_field (normalized_measurements raw) (measurement_row raw rec) "timestamp"
              = data_cell raw rec "timestamp") as Hrow.
  { intros rec Hrec. split; [|split; reflexivity].
    apply rows_normalized_measurements. by exists rec. }
  split; [exact Hid|]. split; [|split; [|split; [|split]]].
  - intros rec Hrec. exists (measurement_row raw rec). by apply Hrow.
  - intros rec rec' r r' _ _ Hs Ht Hr Hr' E1 E2 E3 E4.
    rewrite (Hid r Hr), (Hid r' Hr'), E1, E2, E3, E4.
    unfold data_cell, raw_cell. by rewrite Hs, Ht.
  - intros rec sid ts Hrec Hs Ht. exists (measurement_row raw rec).
    destruct (Hrow rec Hrec) as (Hin & E1 & E2).
    rewrite (Hid _ Hin), E1, E2.
    rewrite (data_cell_text _ _ _ _ Hs), (data_cell_text _ _ _ _ Ht). done.
  - intros rec z ts Hrec Hints Hs Ht. exists (measurement_row raw rec).
    destruct (Hrow rec Hrec) as (Hin & E1 & E2).
    rewrite (Hid _ Hin), E1, E2.
    rewrite (data_cell_integer _ _ _ _ Hints Hs), (data_cell_text _ _ _ _ Ht). done.
  - intros rec Hrec Hs Ht. exists (measurement_row raw rec).
    destruct (Hrow rec Hrec) as (Hin & E1 & E2).
    rewrite (Hid _ Hin), E1, E2.
    rewrite (data_cell_text _ _ _ _ Hs), (data_cell_text _ _ _ _ Ht). done.
Qed.

Lemma measurement_id_is_station_underscore_timestamp_witness :
  ∃ r, r ∈ rows (normalized_measurements [complete_record]) ∧
       frame_field (normalized_measurements [complete_record]) r "measurementid"
         = Str "06240_2024-01-01T10:00:00".
Proof.
  destruct (measurement_id_is_station_underscore_timestamp
              [complete_record] fresh
              (normalized_measurements [complete_record])
              (Some (normalized_stations [complete_record])))
    as (_ & _ & _ & _ & _ & H).
  - vm_compute. reflexivity.
  - apply (H complete_record).
    + apply list_elem_of_singleton. reflexivity.
    + vm_compute. reflexivity.
    + vm_compute. reflexivity.
Defined.

Example scenario_normalized :
  (process_data (Some [complete_record]) fresh).2 =
    inl (Some {| columns := measurement_columns ++ ["measurementid"];
                 rows := [[Str "06240"; Str "2024-01-01T10:00:00"; Int 5; Int 4; Int 3;
                           Int 7; Int 2; Int 80; Int 0; Int 10;
                           Str "06240_2024-01-01T10:00:00"]] |},
         Some {| columns := station_columns;
                 rows := [[Str "06240"; Str "Meetstation Schiphol"; Int 52; Int 4;
                           Str "Amsterdam"]] |}).
Proof. vm_compute. reflexivity. Qed.

(** C4 as stated fails: a list in which one record lacks the temperature
    that another record has is normalised, not rejected. *)
Lemma missing_field_does_not_fail_normalisation :
  ¬ (∀ (raw : list record) (w : world),
       raw ≠ [] →
       (∃ rec c, rec ∈ raw ∧ c ∈ required_columns ∧ rec !! c = None) →
       (process_data (Some raw) w).2 = inl (None, None)).
Proof.
  intros H.
  specialize (H [complete_record; incomplete_record] fresh).
  assert ((process_data (Some [complete_record; incomplete_record]) fresh).2
          ≠ inl (None, None)) as Hne by (vm_compute; discriminate).
  apply Hne, H; [done|].
  exists incomplete_record, "temperature". split; [|split].
  - apply elem_of_cons. right. apply list_elem_of_singleton. reflexivity.
  - apply elem_of_cons. right. apply elem_of_cons. right. apply elem_of_cons. by left.
  - vm_compute. reflexivity.
Qed.

Example incomplete_record_is_normalized :
  (process_data (Some [complete_record; incomplete_record]) fresh).2 =
    inl (Some {| columns := measurement_columns ++ ["measurementid"];
                 rows := [[Str "06240"; Str "2024-01-01T10:00:00"; Flt 5; Int 4; Int 3;
                           Int 7; Int 2; Int 80; Int 0; Int 10;
                           Str "06240_2024-01-01T10:00:00"];
                          [Str "06260"; Str "2024-01-01T10:00:00"; NaN; Int 4; Int 3;
                           Int 7; Int 2; Int 80; Int 0; Int 10;
                           Str "06260_2024-01-01T10:00:00"]] |},
         Some {| columns := station_columns;
                 rows := [[Str "06240"; Str "Meetstation Schiphol"; Int 52; Int 4;
                           Str "Amsterdam"];
                          [Str "06260"; Str "Meetstation Schiphol"; Int 52; Int 4;
                           Str "Amsterdam"]] |}).
Proof. vm_compute. reflexivity. Qed.

Lemma all_keys_absent (raw : list record) (c : string) :
  c ∉ all_keys raw ↔ ∀ rec, rec ∈ raw → rec !! c = None.
Proof.
  rewrite elem_of_all_keys. split.
  - intros H rec Hrec. destruct (rec !! c) eqn:E; [|done].
    exfalso. apply H. exists rec. by rewrite E.
  - intros H (rec & Hrec & [x Hx]). by rewrite (H rec Hrec) in Hx.
Qed.

Lemma data_cell_absent (raw : list record) (rec : record) (c : string) :
  rec !! c = None → data_cell raw rec c = NaN.
Proof.
  intros H. unfold data_cell, raw_cell. rewrite H. by destruct (infer_dtype _).
Qed.

Lemma frame_field_measurement_row (raw : list record) (rec : record) (c : string) :
  c ∈ measurement_columns →
  frame_field (normalized_measurements raw) (measurement_row raw rec) c
    = data_cell raw rec c.
Proof.
  intros Hc. unfold measurement_columns in Hc.
  repeat (apply elem_of_cons in Hc as [-> | Hc]; [reflexivity|]).
  by apply elem_of_nil in Hc.
Qed.

(** C4, amended: normalisation of a non-empty list fails as a whole —
    logging one error and returning (None, None) — exactly when some
    required column is absent from every record.  When every required
    column occurs in some record it succeeds, and a record that lacks a
    field still has its measurement row, with the missing value in that
    field. *)
Theorem normalisation_fails_iff_a_column_is_absent (raw : list record) (w : world) :
  raw ≠ [] →
  ((process_data (Some raw) w).2 = inl (None, None) ↔
   ∃ c, c ∈ required_columns ∧ ∀ rec, rec ∈ raw → rec !! c = None)
  ∧ ((process_data (Some raw) w).2 = inl (None, None) →
     ∃ c, c ∈ required_columns ∧
          process_data (Some raw) w =
            (add_log w [Log ERROR ("Error processing data: " +:+ describe (KeyError c))],
             inl (None, None)))
  ∧ ((process_data (Some raw) w).2 ≠ inl (None, None) →
     ∃ m s, process_data (Some raw) w =
              (add_log w [processed_line m s], inl (Some m, Some s)) ∧
            ∀ rec, rec ∈ raw →
              ∃ r, r ∈ rows m ∧
                   ∀ c, c ∈ measurement_columns →
                        frame_field m r c = data_cell raw rec c ∧
                        (rec !! c = None → frame_field m r c = NaN)).
Proof.
  intros Hne.
  destruct (decide (Forall (λ c, c ∈ all_keys raw) required_columns)) as [Hall|Hn].
  - rewrite (process_data_ok raw w Hne Hall). cbn [snd].
    split; [|split]; [split| |]; try done.
    + intros (c & Hc & Habs). exfalso.
      rewrite Forall_forall in Hall. apply all_keys_absent in Habs. by apply Habs, Hall.
    + intros _. eexists _, _. split; [reflexivity|].
      intros rec Hrec. exists (measurement_row raw rec). split.
      * apply rows_normalized_measurements. by exists rec.
      * intros c Hc. rewrite (frame_field_measurement_row raw rec c Hc).
        split; [done|]. apply data_cell_absent.
  - destruct (process_data_missing raw w Hne Hn) as (c & Hc & Habs & Heq).
    rewrite Heq. cbn [snd]. split; [|split]; [split| |]; try done.
    + intros _. exists c. split; [done|]. by apply all_keys_absent.
    + intros _. by exists c.
Qed.

Lemma normalisation_fails_iff_a_column_is_absent_witness :
  (process_data (Some [incomplete_record]) fresh).2 = inl (None, None) ↔
  ∃ c, c ∈ required_columns ∧ ∀ rec, rec ∈ [incomplete_record] → rec !! c = None.
Proof.
  apply (normalisation_fails_iff_a_column_is_absent [incomplete_record] fresh).
  discriminate.
Defined.

(** * The schema *)

Lemma setup_database_run (w : world) :
  setup_database w =
    ({| store := (schema_script (store w)).1;
        logged := logged w ++ [setup_line (schema_script (store w)).2] |}, inl tt).
Proof.
  unfold setup_database, schema_script, try_except, bind, execute.
  repeat match goal with
         | |- context [create_table_if_not_exists ?n ?d ?db] =>
             destruct (create_table_if_not_exists n d db) as [? [[]|?]]; cbn [store logged]
         | |- context [create_index_if_not_exists ?n ?u ?t ?c ?db] =>
             destruct (create_index_if_not_exists n u t c db) as [? [[]|?]]; cbn [store logged]
         end; reflexivity.
Qed.

Lemma idem_settled (s : SQL unit) (C : database → Prop) : settled s C → idem s.
Proof.
  intros [Hnoop Hdone Hfail] db db' [[]|e] Hs.
  - apply Hnoop. by eapply Hdone.
  - pose proof (Hfail _ _ _ Hs) as ->. exact Hs.
Qed.

Lemma idem_seq (s rest : SQL unit) (C : database → Prop) :
  settled s C → keeps rest C → idem rest → idem (s;; rest).
Proof.
  intros [Hnoop Hdone Hfail] Hkeep Hidem db db' r. unfold bind.
  destruct (s db) as [db1 [[]|e]] eqn:Hs.
  - intros Hrest.
    rewrite (Hnoop db'); [by apply Hidem in Hrest|].
    eapply Hkeep; [exact Hrest|]. by eapply Hdone.
  - intros [= <- <-]. pose proof (Hfail _ _ _ Hs) as ->. by rewrite Hs.
Qed.

Lemma keeps_seq (a b : SQL unit) (C : database → Prop) : keeps a C → keeps b C → keeps (a;; b) C.
Proof.
  intros Ha Hb db db' r. unfold bind.
  destruct (a db) as [db1 [[]|e]] eqn:Hs.
  - intros Hrest HC. eapply Hb; [exact Hrest|]. by eapply Ha.
  - intros [= <- <-] HC. by eapply Ha.
Qed.

Lemma create_table_cases (n : string) (d : table_def) (db db' : database) r :
  create_table_if_not_exists n d db = (db', r) →
  (db' = db ∧ (r = inl tt → table_exists n db)) ∨
  (r = inl tt ∧ tables db !! n = None ∧ db' = add_table db n d).
Proof.
  unfold create_table_if_not_exists, has_table, create_table, bind, get, ret, raise, put,
    table_exists.
  destruct (tables db !! n) as [t|] eqn:Ht; cbn -[decide].
  - intros [= <- <-]. left. split; [done|]. intros _. by exists t.
  - repeat case_decide; intros [= <- <-]; (left; by split) || (right; by repeat split)
      || by destruct H.
Qed.

Lemma create_index_cases (n : string) (u : bool) (tbl : string) (cols : list string)
    (db db' : database) r :
  create_index_if_not_exists n u tbl cols db = (db', r) →
  (db' = db ∧ (r = inl tt → index_exists n tbl db)) ∨
  (r = inl tt ∧ is_Some (tables db !! tbl) ∧ tables db !! n = None ∧
   db' = {| tables := tables db;
            indexes := <[n := {| i_table := tbl; i_columns := cols; i_unique := u |}]>
                         (indexes db) |}).
Proof.
  unfold create_index_if_not_exists, bind, get, ret, raise, put, index_exists.
  destruct (tables db !! tbl) as [t|] eqn:Ht; cbn -[decide]; [|intros [= <- <-]; by left].
  destruct (decide (is_Some (tables db !! n))) as [Hn|Hn]; [intros [= <- <-]; by left|].
  assert (tables db !! n = None) as Hnone.
  { destruct (tables db !! n); [|done]. destruct Hn. by eexists. }
  destruct (decide (is_Some (indexes db !! n))) as [Hi|Hi].
  { intros [= <- <-]. left. split; [done|]. intros _. split; [by eexists|done]. }
  destruct (list_find _ cols) as [[? c]|]; [intros [= <- <-]; by left|].
  destruct (u && has_duplicate _ _ _); intros [= <- <-]; [by left|].
  right. split; [done|]. split; [by eexists|done].
Qed.

Lemma create_table_settled (n : string) (d : table_def) :
  settled (create_table_if_not_exists n d) (table_exists n).
Proof.
  split.
  - intros db [t Ht]. unfold create_table_if_not_exists, has_table, bind, get, ret.
    rewrite Ht. reflexivity.
  - intros db db' [[-> H]|(_ & _ & ->)]%create_table_cases; [by apply H|].
    unfold table_exists, add_table. cbn. rewrite lookup_insert_eq. by eexists.
  - by intros db db' e [[-> _]|(? & _)]%create_table_cases.
Qed.

Lemma create_index_settled (n : string) (u : bool) (tbl : string) (cols : list string) :
  settled (create_index_if_not_exists n u tbl cols) (index_exists n tbl).
Proof.
  split.
  - intros db ([t Ht] & Hn & Hi).
    unfold create_index_if_not_exists, bind, get, ret. rewrite Ht, Hn.
    destruct (decide (is_Some None)) as [[? ?]|_]; [done|].
    by destruct (decide (is_Some (indexes db !! n))).
  - intros db db' [[-> H]|(_ & Ht & Hn & ->)]%create_index_cases; [by apply H|].
    unfold index_exists. cbn. rewrite lookup_insert_eq. split; [done|]. split; [done|].
    by eexists.
  - by intros db db' e [[-> _]|(? & _)]%create_index_cases.
Qed.

Lemma create_table_keeps_table (n n' : string) (d : table_def) :
  keeps (create_table_if_not_exists n d) (table_exists n').
Proof.
  intros db db' r [[-> _]|(_ & Hn & ->)]%create_table_cases; [done|].
  unfold table_exists, add_table. cbn. intros H.
  apply lookup_insert_is_Some. destruct (decide (n = n')); [by left|by right].
Qed.

Lemma create_index_keeps_table (n n' : string) u tbl cols :
  keeps (create_index_if_not_exists n u tbl cols) (table_exists n').
Proof. by intros db db' r [[-> _]|(_ & _ & _ & ->)]%create_index_cases. Qed.

Lemma create_index_keeps_index (n n' : string) u tbl tbl' cols :
  keeps (create_index_if_not_exists n u tbl cols) (index_exists n' tbl').
Proof.
  intros db db' r [[-> _]|(_ & _ & _ & ->)]%create_index_cases; [done|].
  unfold index_exists. cbn. intros (? & ? & H). split; [done|]. split; [done|].
  apply lookup_insert_is_Some. destruct (decide (n = n')); [by left|by right].
Qed.

(** Running the schema statements a second time changes nothing, from
    whatever database the first run started. *)
Lemma schema_script_idem : idem schema_script.
Proof.
  unfold schema_script.
  eapply idem_seq; [apply create_table_settled| |].
  { repeat apply keeps_seq;
      first [apply create_table_keeps_table | apply create_index_keeps_table]. }
  eapply idem_seq; [apply create_table_settled| |].
  { repeat apply keeps_seq; apply create_index_keeps_table. }
  eapply idem_seq; [apply create_index_settled| |].
  { repeat apply keeps_seq; apply create_index_keeps_index. }
  eapply idem_seq; [apply create_index_settled| |].
  { apply create_index_keeps_index. }
  eapply idem_settled. apply create_index_settled.
Qed.

Lemma schema_script_on_full_schema (db : database) :
  schema db = full_schema → schema_script db = (db, inl tt).
Proof.
  intros [= Ht Hi].
  assert (∀ n d, full_schema.1 !! n = Some d → table_exists n db) as Htable.
  { intros n d Hn. unfold table_exists. rewrite <- (fmap_is_Some t_def), <- lookup_fmap, Ht.
    by eexists. }
  assert (∀ n i, tables db !! n = None → schema_indexes !! n = Some i →
                 index_exists n "measurements" db) as Hindex.
  { intros n i Hnone Hn. split; [by eapply (Htable "measurements")|]. split; [done|].
    rewrite Hi, Hn. by eexists. }
  assert (∀ n, full_schema.1 !! n = None → tables db !! n = None) as Hnone.
  { intros n Hn. cbn in Hn. rewrite <- Ht, lookup_fmap in Hn.
    by destruct (tables db !! n). }
  unfold schema_script, bind.
  rewrite (settled_noop _ _ (create_table_settled _ _)) by by eapply Htable.
  rewrite (settled_noop _ _ (create_table_settled _ _)) by by eapply Htable.
  rewrite (settled_noop _ _ (create_index_settled _ _ _ _)) by (by eapply Hindex; [apply Hnone|]).
  rewrite (settled_noop _ _ (create_index_settled _ _ _ _)) by (by eapply Hindex; [apply Hnone|]).
  rewrite (settled_noop _ _ (create_index_settled _ _ _ _)) by (by eapply Hindex; [apply Hnone|]).
  reflexivity.
Qed.

Lemma schema_script_on_no_database :
  (schema_script no_database).2 = inl tt ∧
  schema (schema_script no_database).1 = full_schema.
Proof. split; evaluate. Qed.

Lemma setup_times_S (n : nat) (w : world) :
  setup_times (S n) w = setup_times n (setup_database w).1.
Proof. unfold setup_times. by rewrite Nat.iter_succ_r. Qed.

Lemma setup_database_twice (w : world) :
  store (setup_database (setup_database w).1).1 = store (setup_database w).1.
Proof.
  rewrite !setup_database_run. cbn [fst store].
  destruct (schema_script (store w)) as [db r] eqn:E. cbn [fst].
  by rewrite (schema_script_idem _ _ _ E).
Qed.

Lemma setup_times_settled (k : nat) (w : world) :
  schema_script (store w) = (store w, inl tt) →
  setup_times k w = add_log w (replicate k (Log INFO "Database setup completed")).
Proof.
  revert w. induction k as [|k IH]; intros w H.
  - by rewrite add_log_nil.
  - rewrite setup_times_S, setup_database_run, H. cbn [fst snd setup_line].
    rewrite IH by done. unfold add_log. cbn. by rewrite <- app_assoc.
Qed.

Lemma setup_times_store (k : nat) (w1 w2 : world) :
  store w1 = store w2 → store (setup_times k w1) = store (setup_times k w2).
Proof.
  revert w1 w2. induction k as [|k IH]; intros w1 w2 H; [done|].
  rewrite !setup_times_S. apply IH. rewrite !setup_database_run. cbn. by rewrite H.
Qed.

Lemma setup_database_completed (w : world) :
  logged (setup_database w).1 = (logged w ++ [Log INFO "Database setup completed"])%list ↔
  (schema_script (store w)).2 = inl tt.
Proof.
  rewrite setup_database_run. cbn [fst logged]. split.
  - intros H%app_inv_head. destruct (schema_script (store w)).2 as [[]|e]; [done|].
    cbn in H. discriminate.
  - by intros ->.
Qed.

(** C8: calling setup_database N >= 1 times leaves the store that one
    call leaves, from any prior store; no call raises; when the first
    call completes, every repeated call completes as well, none logging
    an error; and from a store that is absent or already carries the
    schema the first call completes and the final schema is the full
    one: both relations with their primary keys, the cascading foreign
    key, the unique index on (stationid, timestamp) and the two
    secondary indexes. *)
Theorem setup_database_is_idempotent (n : nat) (w : world) :
  (1 ≤ n)%nat →
  store (setup_times n w) = store (setup_database w).1
  ∧ (∀ w', (setup_database w').2 = inl tt)
  ∧ (logged (setup_database w).1
       = (logged w ++ [Log INFO "Database setup completed"])%list →
     logged (setup_times n w)
       = (logged w ++ replicate n (Log INFO "Database setup completed"))%list)
  ∧ (store w = no_database ∨ schema (store w) = full_schema →
     logged (setup_database w).1
       = (logged w ++ [Log INFO "Database setup completed"])%list
     ∧ schema (store (setup_times n w)) = full_schema).
Proof.
  intros Hn.
  assert (store (setup_times n w) = store (setup_database w).1) as Hstore.
  { destruct n as [|n]; [lia|]. clear Hn. rewrite setup_times_S.
    induction n as [|n IH]; [done|].
    rewrite setup_times_S, <- IH. apply setup_times_store, setup_database_twice. }
  split; [exact Hstore|]. split; [|split].
  - intros w'. by rewrite setup_database_run.
  - intros Hdone%setup_database_completed.
    destruct n as [|n]; [lia|]. rewrite setup_times_S, setup_database_run.
    destruct (schema_script (store w)) as [db r] eqn:E. cbn in Hdone. subst r.
    cbn [fst snd setup_line]. rewrite setup_times_settled.
    + cbn. by rewrite <- app_assoc.
    + cbn [store]. by apply schema_script_idem in E.
  - intros Hstart. rewrite Hstore, setup_database_completed, setup_database_run.
    cbn [fst store]. destruct Hstart as [H0|Hfull].
    + rewrite H0. by destruct schema_script_on_no_database as [-> ->].
    + by rewrite (schema_script_on_full_schema _ Hfull).
Qed.

Lemma setup_database_is_idempotent_witness :
  store (setup_times 3 fresh) = store (setup_database fresh).1
  ∧ (∀ w', (setup_database w').2 = inl tt)
  ∧ (logged (setup_database fresh).1
       = (logged fresh ++ [Log INFO "Database setup completed"])%list →
     logged (setup_times 3 fresh)
       = (logged fresh ++ replicate 3 (Log INFO "Database setup completed"))%list)
  ∧ (store fresh = no_database ∨ schema (store fresh) = full_schema →
     logged (setup_database fresh).1
       = (logged fresh ++ [Log INFO "Database setup completed"])%list
     ∧ schema (store (setup_times 3 fresh)) = full_schema).
Proof. apply (setup_database_is_idempotent 3 fresh). lia. Defined.

(** * The persister *)

Lemma write_and_log_run (f : option frame) (name : string) (mode : if_exists)
    (dtypes : gmap string string) (w : world) :
  ∃ l, info_only l ∧
       write_and_log f name mode dtypes w =
         ({| store := (write f name mode dtypes (store w)).1;
             logged := logged w ++ l |},
          (write f name mode dtypes (store w)).2).
Proof.
  unfold write_and_log, write, when.
  destruct f as [f|]; [destruct (empty f); cbn [negb]|].
  - exists []. split; [constructor|]. destruct w. cbn. by rewrite app_nil_r.
  - unfold bind, execute.
    destruct (to_sql f name connect mode dtypes (store w)) as [db [[]|e]].
    + exists [Log INFO ("Stored " +:+ pretty (len f) +:+ " " +:+ name)].
      split; [by repeat constructor|]. reflexivity.
    + exists []. split; [constructor|]. cbn. by rewrite app_nil_r.
  - exists []. split; [constructor|]. destruct w. cbn. by rewrite app_nil_r.
Qed.

Lemma store_data_unfold (m s : option frame) :
  store_data m s =
    try_except
      (write_and_log s "stations" replace stations_dtype;;
       write_and_log m "measurements" append measurements_dtype)
      (λ e, logger ERROR ("Error storing data: " +:+ describe e)).
Proof. reflexivity. Qed.

(** [store_data] runs the two writes; it logs an error exactly when one
    of them raises, and then nothing after it. *)
Lemma store_data_run (m s : option frame) (w : world) :
  ∃ l, store_data m s w =
         ({| store := (persist m s (store w)).1; logged := logged w ++ l |}, inl tt) ∧
       match (persist m s (store w)).2 with
       | inl _ => info_only l
       | inr e => ∃ l', l = (l' ++ [Log ERROR ("Error storing data: " +:+ describe e)])%list
                        ∧ info_only l'
       end.
Proof.
  rewrite store_data_unfold. unfold try_except, persist, bind.
  destruct (write_and_log_run s "stations" replace stations_dtype w) as (l1 & Hl1 & ->).
  destruct (write s "stations" replace stations_dtype (store w)) as [db1 [[]|e1]];
    cbn [fst snd].
  - match goal with |- context [write_and_log m ?n ?md ?dt ?w1] =>
      destruct (write_and_log_run m n md dt w1) as (l2 & Hl2 & ->) end.
    cbn [store logged].
    destruct (write m "measurements" append measurements_dtype db1) as [db2 [[]|e2]];
      cbn [fst snd].
    + exists (l1 ++ l2)%list. rewrite app_assoc. split; [done|]. by apply Forall_app.
    + rewrite logger_add_log. unfold add_log. cbn [store logged].
      eexists. rewrite <- !app_assoc. split; [reflexivity|].
      exists (l1 ++ l2)%list. rewrite <- app_assoc. split; [done|]. by apply Forall_app.
  - rewrite logger_add_log. unfold add_log. cbn [store logged].
    eexists. rewrite <- !app_assoc. split; [reflexivity|]. by exists l1.
Qed.

(** ** What a write can touch *)

Lemma confined_ret (name : string) : confined name (ret tt).
Proof. by intros db db' r [= <- <-]. Qed.

Lemma confined_bind (name : string) (a b : SQL unit) :
  confined name a → confined name b → confined name (a;; b).
Proof.
  intros Ha Hb db db' r. unfold bind.
  destruct (a db) as [db1 [[]|e]] eqn:E.
  - intros Hr. destruct (Ha _ _ _ E) as [Ht Hi], (Hb _ _ _ Hr) as [Ht' Hi'].
    split; [|by etrans]. intros n Hn. by rewrite Ht', Ht.
  - intros [= <- <-]. by eapply Ha.
Qed.

Lemma confined_create_table (name : string) (d : table_def) :
  confined name (create_table name d).
Proof.
  intros db db' r. unfold create_table, bind, get, raise, put.
  repeat case_decide; intros [= <- <-]; try done.
  split; [|done]. intros n Hn. cbn. by rewrite lookup_insert_ne.
Qed.

Lemma drop_table_off (name : string) (db : database) (t : table) :
  tables db !! name = Some t →
  drop_table connect name db =
    ({| tables := delete name (tables db);
        indexes := filter (λ '(_, i), i_table i ≠ name) (indexes db) |}, inl tt).
Proof. intros H. unfold drop_table, bind, get. by rewrite H. Qed.

Lemma confined_drop_table (name : string) : confined name (drop_table connect name).
Proof.
  intros db db' r. destruct (tables db !! name) as [t|] eqn:Ht.
  - rewrite (drop_table_off _ _ _ Ht). intros [= <- <-]. split.
    + intros n Hn. cbn. by rewrite lookup_delete_ne.
    + cbn. apply map_filter_subseteq.
  - unfold drop_table, bind, get. rewrite Ht. by intros [= <- <-].
Qed.

Lemma executemany_inl keys d (old new rs : list row) :
  executemany keys d old new = inl rs → rs = (old ++ new)%list.
Proof.
  revert old. induction new as [|r new IH]; intros old; cbn.
  - intros [= <-]. by rewrite app_nil_r.
  - destruct (violation keys d old r); [done|]. intros ->%IH. by rewrite <- app_assoc.
Qed.

(** What an INSERT through pandas does: all the rows, or none. *)
Lemma insert_cases (name : string) (f : frame) (db db' : database) r :
  insert name f db = (db', r) →
  (db' = db ∧ ∃ e, r = inr e) ∨
  (r = inl tt ∧ ∃ t,
     tables db !! name = Some t ∧
     executemany (unique_keys db name (t_def t)) (t_def t) (t_rows t)
                 (bind_row (t_def t) (columns f) <$> rows f)
       = inl (t_rows t ++ (bind_row (t_def t) (columns f) <$> rows f))%list ∧
     db' = {| tables :=
                <[name := {| t_def := t_def t;
                             t_rows := (t_rows t ++ (bind_row (t_def t) (columns f) <$> rows f))%list |}]>
                  (tables db);
              indexes := indexes db |}).
Proof.
  unfold insert, bind, get, raise, put.
  destruct (tables db !! name) as [t|] eqn:Ht; [|intros [= <- <-]; left; eauto].
  cbn. destruct (list_find _ (columns f)) as [[? c]|]; [intros [= <- <-]; left; eauto|].
  destruct (executemany _ _ _ _) as [rs|e] eqn:E; intros [= <- <-]; [|left; eauto].
  right. split; [done|]. exists t. pose proof (executemany_inl _ _ _ _ _ E) as ->. done.
Qed.

Lemma confined_insert (name : string) (f : frame) : confined name (insert name f).
Proof.
  intros db db' r [[-> _]|(_ & t & _ & _ & ->)]%insert_cases; [done|].
  split; [|done]. intros n Hn. cbn. by rewrite lookup_insert_ne.
Qed.

Lemma to_sql_unfold (f : frame) (name : string) (mode : if_exists)
    (dtypes : gmap string string) (db : database) :
  to_sql f name connect mode dtypes db =
    ((if bool_decide (is_Some (tables db !! name)) then
        match mode with
        | replace => drop_table connect name;; create_table name (pandas_table dtypes f)
        | append => ret tt
        end
      else create_table name (pandas_table dtypes f));;
     insert name f) db.
Proof. reflexivity. Qed.

Lemma confined_to_sql (f : frame) (name : string) (mode : if_exists)
    (dtypes : gmap string string) :
  confined name (to_sql f name connect mode dtypes).
Proof.
  intros db db' r. rewrite to_sql_unfold.
  apply (confined_bind name); [|apply confined_insert].
  destruct (bool_decide _); [destruct mode|].
  - apply confined_bind; [apply confined_drop_table|apply confined_create_table].
  - apply confined_ret.
  - apply confined_create_table.
Qed.

Lemma confined_write (f : option frame) (name : string) (mode : if_exists)
    (dtypes : gmap string string) :
  confined name (write f name mode dtypes).
Proof.
  unfold write, when. destruct f as [f|]; [destruct (negb (empty f))|].
  - apply confined_to_sql.
  - apply confined_ret.
  - apply confined_ret.
Qed.

Lemma persist_confined (m s : option frame) (db : database) :
  (∀ n, n ≠ "stations" → n ≠ "measurements" →
        tables (persist m s db).1 !! n = tables db !! n) ∧
  indexes (persist m s db).1 ⊆ indexes db.
Proof.
  unfold persist, bind.
  destruct (write s "stations" replace stations_dtype db) as [db1 [[]|e]] eqn:E1.
  - destruct (write m "measurements" append measurements_dtype db1) as [db2 r] eqn:E2.
    destruct (confined_write _ _ _ _ _ _ _ E1) as [Ht1 Hi1].
    destruct (confined_write _ _ _ _ _ _ _ E2) as [Ht2 Hi2].
    split; [|by etrans]. intros n H1 H2. cbn. by rewrite Ht2, Ht1.
  - destruct (confined_write _ _ _ _ _ _ _ E1) as [Ht1 Hi1].
    split; [|done]. intros n H1 H2. cbn. by rewrite Ht1.
Qed.

Lemma no_index_on_subseteq (name : string) (db db' : database) :
  indexes db' ⊆ indexes db → no_index_on name db → no_index_on name db'.
Proof.
  intros Hsub [Hn Hi]. split.
  - by eapply lookup_weaken_None.
  - intros n i H. eapply Hi. by eapply lookup_weaken.
Qed.

Lemma column_names_pandas_table (dtypes : gmap string string) (f : frame) :
  column_names (pandas_table dtypes f) = columns f.
Proof.
  unfold column_names, pandas_table. cbn.
  induction (columns f) as [|c cs IH]; [done|]. cbn. by rewrite IH.
Qed.

Lemma unique_keys_none (name : string) (db : database) (d : table_def) :
  t_primary_key d = None →
  (∀ n i, indexes db !! n = Some i → i_table i ≠ name) →
  unique_keys db name d = [].
Proof.
  intros Hpk Hi. unfold unique_keys. rewrite Hpk. cbn.
  assert (Forall (λ i, i_table i ≠ name) (map_to_list (indexes db)).*2) as Hall.
  { apply Forall_forall. intros i (p & -> & Hp)%list_elem_of_fmap.
    destruct p as [n i]. apply elem_of_map_to_list in Hp. by eapply Hi. }
  induction Hall as [|i l Hne _ IH]; [done|].
  rewrite filter_cons. destruct (decide _) as [[? _]|_]; [done|]. exact IH.
Qed.

Lemma executemany_free (d : table_def) (old new : list row) :
  t_not_null d = [] → executemany [] d old new = inl (old ++ new)%list.
Proof.
  intros Hnn. revert old. induction new as [|r new IH]; intros old; cbn.
  - by rewrite app_nil_r.
  - unfold violation. rewrite Hnn. cbn. rewrite IH. by rewrite <- app_assoc.
Qed.

(** Inserting a whole frame into the table pandas has just created for
    it. *)
Lemma insert_into_new_table (name : string) (f : frame) (dtypes : gmap string string)
    (db : database) :
  tables db !! name = Some {| t_def := pandas_table dtypes f; t_rows := [] |} →
  (∀ n i, indexes db !! n = Some i → i_table i ≠ name) →
  insert name f db =
    ({| tables := <[name := {| t_def := pandas_table dtypes f;
                               t_rows := bind_row (pandas_table dtypes f) (columns f)
                                           <$> rows f |}]> (tables db);
        indexes := indexes db |}, inl tt).
Proof.
  intros Ht Hi. unfold insert, bind, get. rewrite Ht. cbn [t_def t_rows].
  rewrite column_names_pandas_table.
  assert (list_find (λ c, c ∉ columns f) (columns f) = None) as ->.
  { apply list_find_None, Forall_forall. intros c Hc Hn. done. }
  rewrite unique_keys_none by done.
  rewrite executemany_free by done. reflexivity.
Qed.

(** [to_sql(..., if_exists="replace")]: afterwards the table holds the
    frame and nothing else. *)
Lemma to_sql_replace (f : frame) (name : string) (dtypes : gmap string string)
    (db : database) :
  NoDup (columns f) → no_index_on name db →
  to_sql f name connect replace dtypes db =
    ({| tables := <[name := {| t_def := pandas_table dtypes f;
                               t_rows := bind_row (pandas_table dtypes f) (columns f)
                                           <$> rows f |}]> (tables db);
        indexes := indexes db |}, inl tt).
Proof.
  intros Hnd [Hname Hon]. rewrite to_sql_unfold. unfold bind at 1.
  assert (∀ db0, tables db0 !! name = None → indexes db0 = indexes db →
            create_table name (pandas_table dtypes f) db0 =
              (add_table db0 name (pandas_table dtypes f), inl tt)) as Hcreate.
  { intros db0 Ht0 Hi0. unfold create_table, bind, get. rewrite Ht0, Hi0, Hname.
    rewrite column_names_pandas_table.
    destruct (decide (is_Some None)) as [[? ?]|_]; [done|].
    by destruct (decide (NoDup (columns f))). }
  assert (filter (λ '(_, i), i_table i ≠ name) (indexes db) = indexes db) as Hfilter.
  { apply map_filter_id. intros n i H. by eapply Hon. }
  destruct (tables db !! name) as [t|] eqn:Ht.
  - rewrite bool_decide_eq_true_2 by by eexists.
    unfold bind at 1. rewrite (drop_table_off _ _ _ Ht), Hfilter.
    rewrite Hcreate; [|apply lookup_delete_eq|done].
    rewrite (insert_into_new_table name f dtypes).
    + unfold add_table. cbn. by rewrite insert_insert_eq, insert_delete_eq.
    + unfold add_table. cbn. by rewrite lookup_insert_eq.
    + done.
  - rewrite bool_decide_eq_false_2 by (by intros [? ?]).
    rewrite Hcreate by done.
    rewrite (insert_into_new_table name f dtypes).
    + unfold add_table. cbn. by rewrite insert_insert_eq.
    + unfold add_table. cbn. by rewrite lookup_insert_eq.
    + done.
Qed.

Lemma to_sql_append_existing (f : frame) (name : string) (dtypes : gmap string string)
    (db : database) :
  is_Some (tables db !! name) →
  to_sql f name connect append dtypes db = insert name f db.
Proof.
  intros H. rewrite to_sql_unfold. rewrite bool_decide_eq_true_2 by done. reflexivity.
Qed.

Lemma persist_stations (m : option frame) (s : frame) (db : database) :
  NoDup (columns s) → empty s = false → no_index_on "stations" db →
  tables (persist m (Some s) db).1 !! "stations" = Some (stored stations_dtype s).
Proof.
  intros Hnd Hne Hno. unfold persist, bind, write at 1, when. rewrite Hne. cbn [negb].
  rewrite (to_sql_replace s "stations" stations_dtype db Hnd Hno).
  destruct (write m "measurements" append measurements_dtype _) as [db2 r] eqn:E2.
  destruct (confined_write _ _ _ _ _ _ _ E2) as [Ht2 _].
  cbn. rewrite Ht2 by done. cbn. by rewrite lookup_insert_eq.
Qed.

Lemma bind_station_row (s : frame) (r : row) :
  columns s = station_columns →
  bind_row (pandas_table stations_dtype s) (columns s) r = stored_station r.
Proof. intros H. unfold bind_row, pandas_table. cbn [t_columns]. rewrite H. reflexivity. Qed.

(** C3: after persisting stations S1 and then stations S2, the stations
    relation is the table of S2 alone: the columns of S2 and, row for
    row, the rows of S2 as SQLite stores them; nothing of S1 or of the
    earlier contents is kept.  For frames with the five station columns
    the stored rows are the rows of S2, with the identifier, name and
    region as text. *)
Theorem stations_are_a_full_snapshot
    (m1 m2 : option frame) (s1 s2 : frame) (w : world) :
  NoDup (columns s2) → empty s2 = false →
  no_index_on "stations" (store w) →
  tables (store (store_data m2 (Some s2) (store_data m1 (Some s1) w).1).1) !! "stations"
    = Some {| t_def := pandas_table stations_dtype s2;
              t_rows := bind_row (pandas_table stations_dtype s2) (columns s2)
                          <$> rows s2 |}
  ∧ (columns s2 = station_columns →
     t_rows <$> tables (store (store_data m2 (Some s2)
                                 (store_data m1 (Some s1) w).1).1) !! "stations"
       = Some (stored_station <$> rows s2)).
Proof.
  intros Hnd Hne Hno.
  assert (tables (store (store_data m2 (Some s2) (store_data m1 (Some s1) w).1).1)
            !! "stations" = Some (stored stations_dtype s2)) as Hs.
  { destruct (store_data_run m1 (Some s1) w) as (l1 & -> & _). cbn [fst store].
    match goal with |- context [store_data m2 (Some s2) ?w1] =>
      destruct (store_data_run m2 (Some s2) w1) as (l2 & -> & _) end.
    cbn [fst store].
    apply persist_stations; [done|done|].
    eapply no_index_on_subseteq; [|exact Hno]. apply persist_confined. }
  split; [exact Hs|].
  intros Hcols. rewrite Hs. cbn. f_equal.
  apply list_fmap_ext. intros _ r _. by apply bind_station_row.
Qed.

Lemma no_index_on_stations_set_up : no_index_on "stations" (store set_up).
Proof.
  assert (indexes (store set_up) = schema_indexes) as Hi
    by (evaluate).
  split; [by rewrite Hi|].
  intros n i H.
  rewrite Hi in H. unfold schema_indexes in H.
  repeat (apply lookup_insert_Some in H as [[_ <-]|[_ H]]; [discriminate|]).
  apply lookup_singleton_Some in H as [_ <-]. discriminate.
Qed.

Lemma stations_are_a_full_snapshot_witness :
  tables (store (store_data None (Some stations_2)
                   (store_data None (Some stations_1) set_up).1).1) !! "stations"
    = Some {| t_def := pandas_table stations_dtype stations_2;
              t_rows := bind_row (pandas_table stations_dtype stations_2)
                          (columns stations_2) <$> rows stations_2 |}
  ∧ (columns stations_2 = station_columns →
     t_rows <$> tables (store (store_data None (Some stations_2)
                                 (store_data None (Some stations_1) set_up).1).1)
                  !! "stations"
       = Some (stored_station <$> rows stations_2)).
Proof.
  apply (stations_are_a_full_snapshot None None stations_1 stations_2 set_up).
  - evaluate.
  - reflexivity.
  - apply no_index_on_stations_set_up.
Defined.

Example snapshot_rows :
  t_rows <$> tables (store (store_data None (Some stations_2)
                              (store_data None (Some stations_1) set_up).1).1) !! "stations"
    = Some (rows stations_2).
Proof. evaluate. Qed.

Lemma write_stations_keeps_measurements (s : option frame) (db db1 : database) r1 :
  write s "stations" replace stations_dtype db = (db1, r1) →
  tables db1 !! "measurements" = tables db !! "measurements".
Proof. intros E1. destruct (confined_write _ _ _ _ _ _ _ E1) as [Ht1 _]. by rewrite Ht1. Qed.

(** C9: [store_data] deletes no measurement row.  Whatever the frames,
    the measurements relation keeps its definition and its rows, in
    order, and new rows only follow them; a call that writes stations
    only leaves it as it was, including the rows whose station is not in
    the new snapshot. *)
Theorem store_data_deletes_no_measurement
    (m s : option frame) (w : world) (t : table) :
  tables (store w) !! "measurements" = Some t →
  (∃ added,
     tables (store (store_data m s w).1) !! "measurements"
       = Some {| t_def := t_def t; t_rows := (t_rows t ++ added)%list |})
  ∧ tables (store (store_data None s w).1) !! "measurements" = Some t.
Proof.
  intros Ht. split.
  - destruct (store_data_run m s w) as (l & -> & _). cbn [fst store].
    unfold persist, bind.
    destruct (write s "stations" replace stations_dtype (store w)) as [db1 r1] eqn:E1.
    pose proof (write_stations_keeps_measurements _ _ _ _ E1) as Ht1.
    rewrite Ht in Ht1.
    destruct r1 as [[]|e]; cbn [fst];
      [|exists []; rewrite app_nil_r, Ht1; by destruct t].
    unfold write, when. destruct m as [m|]; [destruct (negb (empty m))|];
      cbn [ret fst]; try (exists []; rewrite app_nil_r, Ht1; by destruct t).
    rewrite to_sql_append_existing by by eexists.
    destruct (insert "measurements" m db1) as [db2 r2] eqn:E2.
    apply insert_cases in E2 as [[-> _]|(_ & t' & Ht' & _ & ->)]; cbn [fst].
    + exists []. rewrite app_nil_r, Ht1. by destruct t.
    + rewrite Ht1 in Ht'. injection Ht' as <-. eexists. cbn.
      by rewrite lookup_insert_eq.
  - destruct (store_data_run None s w) as (l & -> & _). cbn [fst store].
    unfold persist, bind.
    destruct (write s "stations" replace stations_dtype (store w)) as [db1 r1] eqn:E1.
    pose proof (write_stations_keeps_measurements _ _ _ _ E1) as Ht1.
    rewrite Ht in Ht1. by destruct r1 as [[]|e].
Qed.

Lemma store_data_deletes_no_measurement_witness :
  (∃ added,
     tables (store (store_data None (Some stations_2) first_cycle).1) !! "measurements"
       = Some {| t_def := t_def first_measurements;
                 t_rows := (t_rows first_measurements ++ added)%list |})
  ∧ tables (store (store_data None (Some stations_2) first_cycle).1) !! "measurements"
      = Some first_measurements.
Proof.
  apply (store_data_deletes_no_measurement None (Some stations_2) first_cycle
           first_measurements).
  evaluate.
Defined.

(** The drop that [to_sql] issues for the stations, on the connection
    of [store_data] and on one that enforces foreign keys: only the
    second deletes the measurements of the dropped stations. *)
Example drop_cascades_only_when_enforced :
  measurement_rows (drop_table connect "stations" (store first_cycle)).1
    = measurement_rows (store first_cycle)
  ∧ measurement_rows
      (drop_table (pragma_foreign_keys_on connect) "stations" (store first_cycle)).1 = [].
Proof. split; evaluate. Qed.

(** * Ingesting the same records twice *)

Lemma unique_keys_measurements (db : database) :
  indexes db = schema_indexes →
  unique_keys db "measurements" measurements_table = measurement_keys.
Proof. intros H. unfold unique_keys. rewrite H. vm_compute. reflexivity. Qed.

Lemma insert_run (name : string) (f : frame) (db : database) (t : table) :
  tables db !! name = Some t →
  list_find (λ c, c ∉ column_names (t_def t)) (columns f) = None →
  insert name f db =
    match executemany (unique_keys db name (t_def t)) (t_def t) (t_rows t)
                      (bind_row (t_def t) (columns f) <$> rows f) with
    | inl rs => ({| tables := <[name := {| t_def := t_def t; t_rows := rs |}]> (tables db);
                    indexes := indexes db |}, inl tt)
    | inr e => (db, inr e)
    end.
Proof.
  intros Ht Hcols. unfold insert, bind, get. rewrite Ht. cbn. rewrite Hcols.
  by destruct (executemany _ _ _ _).
Qed.

Lemma sql_eqb_text (s : string) : sql_eqb (Str s) (Str s) = true.
Proof. cbn. by apply bool_decide_eq_true_2. Qed.

Lemma station_columns_NoDup : NoDup station_columns.
Proof. evaluate. Qed.

Lemma normalized_not_empty (raw : list record) :
  raw ≠ [] →
  empty (normalized_measurements raw) = false ∧ empty (normalized_stations raw) = false.
Proof.
  intros Hne.
  assert (∀ cols, keep_first [] (project raw cols) ≠ []) as Hrows.
  { intros cols. apply keep_first_nonempty. unfold project. by destruct raw. }
  unfold empty. cbn [rows columns normalized_measurements normalized_stations].
  split.
  - pose proof (Hrows measurement_columns). by destruct (keep_first _ _).
  - pose proof (Hrows station_columns). by destruct (keep_first _ _).
Qed.

(** Persisting the frames normalised from [raw]: the stations are
    replaced and the measurements appended, all or none. *)
Lemma persist_normalized (raw : list record) (db : database) (rs : list row) :
  raw ≠ [] →
  tables db !! "measurements" = Some {| t_def := measurements_table; t_rows := rs |} →
  indexes db = schema_indexes →
  let db' := (persist (Some (normalized_measurements raw))
                      (Some (normalized_stations raw)) db).1 in
  tables db' !! "measurements"
    = Some {| t_def := measurements_table;
              t_rows := appended rs (normalized_measurements raw) |}
  ∧ indexes db' = schema_indexes.
Proof.
  intros Hne Ht Hi. destruct (normalized_not_empty raw Hne) as [Hem Hes].
  assert (no_index_on "stations" db) as Hno.
  { split; [by rewrite Hi|]. intros n i H. rewrite Hi in H. unfold schema_indexes in H.
    repeat (apply lookup_insert_Some in H as [[_ <-]|[_ H]]; [discriminate|]).
    apply lookup_singleton_Some in H as [_ <-]. discriminate. }
  cbn zeta. unfold persist, bind, write, when. rewrite Hem, Hes. cbn [negb].
  rewrite (to_sql_replace (normalized_stations raw) "stations" stations_dtype db
             station_columns_NoDup Hno).
  rewrite to_sql_append_existing
    by (cbn; rewrite lookup_insert_ne by done; rewrite Ht; by eexists).
  erewrite insert_run;
    [|cbn; rewrite lookup_insert_ne by done; exact Ht|vm_compute; reflexivity].
  cbn [t_def t_rows]. rewrite unique_keys_measurements by done.
  unfold appended, bound_measurements.
  destruct (executemany _ _ _ _) as [rs'|e]; cbn [fst tables indexes].
  - by rewrite lookup_insert_eq.
  - by rewrite lookup_insert_ne.
Qed.

Lemma measurement_row_key (raw : list record) (rec : record) :
  field measurements_table
        (bind_row measurements_table (columns (normalized_measurements raw))
                  (measurement_row raw rec)) "measurementid"
  = Str (measurement_id (data_cell raw rec <$> measurement_columns)).
Proof. reflexivity. Qed.

(** A row that is already in the relation cannot be inserted again. *)
Lemma violation_of_present_row (old : list row) (b : row) (key : string) :
  b ∈ old →
  field measurements_table b "measurementid" = Str key →
  is_Some (violation measurement_keys measurements_table old b).
Proof.
  intros Hin Hkey. unfold violation.
  destruct (existsb _ (t_not_null measurements_table)); [by eexists|].
  assert (existsb (unique_conflict measurements_table old b) measurement_keys = true) as ->.
  { cbn [existsb measurement_keys]. apply orb_true_iff. left.
    unfold unique_conflict. apply existsb_exists. exists b.
    split; [by apply list_elem_of_In|].
    cbn [same_key forallb]. by rewrite Hkey, sql_eqb_text. }
  by eexists.
Qed.

Lemma appended_twice (raw : list record) (old : list row) :
  raw ≠ [] →
  appended (appended old (normalized_measurements raw)) (normalized_measurements raw)
  = appended old (normalized_measurements raw).
Proof.
  intros Hne. unfold appended at 2 3.
  destruct (executemany _ _ old _) as [rs|e] eqn:E.
  - apply executemany_inl in E as ->. unfold appended.
    destruct (normalized_not_empty raw Hne) as [Hem _].
    unfold bound_measurements.
    destruct (rows (normalized_measurements raw)) as [|r rest] eqn:Hrows;
      [unfold empty in Hem; by rewrite Hrows in Hem|].
    assert (r ∈ rows (normalized_measurements raw)) as Hr by (rewrite Hrows; by left).
    apply rows_normalized_measurements in Hr as (rec & _ & ->).
    cbn [fmap list_fmap executemany].
    edestruct (violation_of_present_row) as [e ->]; [|apply measurement_row_key|done].
    apply elem_of_app. right. by left.
  - unfold appended. by rewrite E.
Qed.

Lemma store_data_nothing (w : world) : store_data None None w = (w, inl tt).
Proof. reflexivity. Qed.

Lemma normalize_and_persist_rows (raw_data : option (list record)) (w : world)
    (rs : list row) :
  tables (store w) !! "measurements"
    = Some {| t_def := measurements_table; t_rows := rs |} →
  indexes (store w) = schema_indexes →
  tables (store (normalize_and_persist raw_data w).1) !! "measurements"
    = Some {| t_def := measurements_table; t_rows := ingested raw_data rs |}
  ∧ indexes (store (normalize_and_persist raw_data w).1) = schema_indexes.
Proof.
  intros Ht Hi. unfold normalize_and_persist, bind, ingested.
  destruct raw_data as [raw|]; [|by cbn].
  destruct (decide (raw ≠ [] ∧ _)) as [[Hne Hall]|Hn].
  - rewrite (process_data_ok raw w Hne Hall). cbn [fst snd].
    match goal with |- context [store_data ?m ?s ?w1] =>
      destruct (store_data_run m s w1) as (l & -> & _) end.
    cbn [fst store add_log]. by apply persist_normalized.
  - destruct raw as [|rec raw]; [by cbn|].
    destruct (process_data_missing (rec :: raw) w) as (c & _ & _ & ->); [done| |].
    + intros Hall. by apply Hn.
    + cbn [fst snd]. by rewrite store_data_nothing.
Qed.

Lemma ingested_twice (raw_data : option (list record)) (rs : list row) :
  ingested raw_data (ingested raw_data rs) = ingested raw_data rs.
Proof.
  unfold ingested. destruct raw_data as [raw|]; [|done].
  destruct (decide _) as [[Hne _]|_]; [|done]. by apply appended_twice.
Qed.

Lemma measurements_ready_rows (db : database) (rs : list row) :
  tables db !! "measurements" = Some {| t_def := measurements_table; t_rows := rs |} →
  measurement_rows db = rs.
Proof. intros H. unfold measurement_rows. by rewrite H. Qed.

(** C1: on a store that carries the measurements relation of the
    schema, normalising a raw record set and persisting the outputs a
    second time leaves the measurement rows that the first time left:
    the second persist adds no row, and the row count is the same. *)
Theorem second_ingestion_adds_no_measurement
    (raw_data : option (list record)) (w : world) :
  measurements_ready (store w) →
  let once := (normalize_and_persist raw_data w).1 in
  let twice := (normalize_and_persist raw_data once).1 in
  measurement_rows (store twice) = measurement_rows (store once)
  ∧ length (measurement_rows (store twice)) = length (measurement_rows (store once)).
Proof.
  intros [[rs Ht] Hi]. cbn zeta.
  destruct (normalize_and_persist_rows raw_data w rs Ht Hi) as [Ht1 Hi1].
  destruct (normalize_and_persist_rows raw_data _ _ Ht1 Hi1) as [Ht2 _].
  rewrite (measurements_ready_rows _ _ Ht1), (measurements_ready_rows _ _ Ht2).
  by rewrite ingested_twice.
Qed.

Lemma measurements_ready_set_up : measurements_ready (store set_up).
Proof.
  split.
  - exists []. evaluate.
  - evaluate.
Qed.

Lemma second_ingestion_adds_no_measurement_witness :
  measurement_rows
    (store (normalize_and_persist (Some [complete_record])
              (normalize_and_persist (Some [complete_record]) set_up).1).1)
  = measurement_rows (store (normalize_and_persist (Some [complete_record]) set_up).1)
  ∧ length (measurement_rows
              (store (normalize_and_persist (Some [complete_record])
                        (normalize_and_persist (Some [complete_record]) set_up).1).1))
    = length (measurement_rows
                (store (normalize_and_persist (Some [complete_record]) set_up).1)).
Proof.
  apply (second_ingestion_adds_no_measurement (Some [complete_record]) set_up).
  apply measurements_ready_set_up.
Defined.

Example scenario_persisted_twice :
  measurement_rows
    (store (normalize_and_persist (Some [complete_record])
              (normalize_and_persist (Some [complete_record]) set_up).1).1)
  = [[Str "06240_2024-01-01T10:00:00"; Str "06240"; Str "2024-01-01T10:00:00";
      Int 5; Int 4; Int 3; Int 7; Int 2; Int 80; Int 0; Int 10]].
Proof. evaluate. Qed.

(** ** Duplicate keys at the store boundary *)

(** C2 fails on the code.  The store holds the measurement
    "06240_2024-01-01T10:00:00"; the next batch holds that measurement
    again and a new one, "06260_2024-01-01T10:00:00".  [store_data]
    inserts neither: the new row is not in the relation afterwards, and
    the duplicate key is logged as an error. *)
Theorem duplicate_key_rejects_the_whole_batch :
  let m := normalized_measurements second_batch in
  let s := normalized_stations second_batch in
  let after := (store_data (Some m) (Some s) first_cycle).1 in
  (process_data (Some second_batch) first_cycle).2 = inl (Some m, Some s)
  ∧ (λ r, at_index r 0) <$> measurement_rows (store first_cycle)
      = [Str "06240_2024-01-01T10:00:00"]
  ∧ (λ r, at_index r 0) <$> bound_measurements m
      = [Str "06240_2024-01-01T10:00:00"; Str "06260_2024-01-01T10:00:00"]
  ∧ measurement_rows (store after) = measurement_rows (store first_cycle)
  ∧ last (logged after)
      = Some (Log ERROR "Error storing data: UNIQUE constraint failed").
Proof. cbn zeta. repeat split; evaluate. Qed.

(** * The fetcher *)

Lemma fetch_weather_data_run (resp : response) (w : world) :
  fetch_weather_data resp w =
    (add_log w [fetching_line;
                match payload resp, fetch_failure resp with
                | Some sm, _ => fetched_line sm
                | None, Some e => fetch_error_line e
                | None, None => fetching_line
                end],
     inl (payload resp)).
Proof.
  unfold fetch_weather_data, try_except, bind at 1.
  rewrite logger_add_log. unfold bind at 1.
  destruct resp as [e|data]; cbn [lift raise ret payload fetch_failure].
  - destruct e; unfold bind; by rewrite logger_add_log, add_log_app.
  - unfold bind at 1, subscript.
    destruct (data !! "actual") as [actual|]; cbn [lift raise ret].
    + unfold bind at 1.
      destruct (actual !! "stationmeasurements") as [sm|]; cbn [lift raise ret].
      * unfold bind. by rewrite logger_add_log, add_log_app.
      * unfold bind. by rewrite logger_add_log, add_log_app.
    + unfold bind. by rewrite logger_add_log, add_log_app.
Qed.

Lemma payload_or_failure (resp : response) :
  (∃ sm, payload resp = Some sm ∧ fetch_failure resp = None) ∨
  (∃ e, payload resp = None ∧ fetch_failure resp = Some e).
Proof.
  destruct resp as [e|data]; cbn; [right; eauto|].
  destruct (data !! "actual") as [actual|]; [|right; eauto].
  destruct (actual !! "stationmeasurements") as [sm|]; [left|right]; eauto.
Qed.

(** X1: [fetch_weather_data] never raises and never writes the store.
    It returns the list under actual.stationmeasurements when the
    request succeeds and both keys are present, logging the number of
    records.  In every other case it returns None after logging exactly
    one error, whose wording tells a failed request from a missing key
    from any other exception. *)
Theorem fetch_returns_payload_or_none (resp : response) (w : world) :
  (fetch_weather_data resp w).2 = inl (payload resp)
  ∧ store (fetch_weather_data resp w).1 = store w
  ∧ (∀ sm, payload resp = Some sm →
       logged (fetch_weather_data resp w).1
         = (logged w ++ [fetching_line; fetched_line sm])%list)
  ∧ (payload resp = None →
       ∃ e, fetch_failure resp = Some e ∧
            logged (fetch_weather_data resp w).1
              = (logged w ++ [fetching_line; fetch_error_line e])%list)
  ∧ (∀ data, resp = Json data →
       payload resp = None →
       ∃ key, (key = "actual" ∨ key = "stationmeasurements") ∧
              logged (fetch_weather_data resp w).1
                = (logged w ++ [fetching_line;
                                Log ERROR ("Unexpected data structure: '"
                                           +:+ key +:+ "'")])%list).
Proof.
  rewrite fetch_weather_data_run. cbn [fst snd].
  split; [done|]. split; [done|]. split; [|split].
  - by intros sm ->.
  - intros Hnone. destruct (payload_or_failure resp) as [(sm & H & _)|(e & _ & He)].
    + by rewrite H in Hnone.
    + exists e. by rewrite Hnone, He.
  - intros data -> Hnone. cbn in *.
    destruct (data !! "actual") as [actual|].
    + rewrite Hnone. exists "stationmeasurements". split; [by right|done].
    + exists "actual". split; [by left|done].
Qed.

(** * One cycle, end to end *)

Lemma store_data_store (m s : option frame) (w : world) :
  store (store_data m s w).1 = (persist m s (store w)).1.
Proof. by destruct (store_data_run m s w) as (l & -> & _). Qed.

Lemma store_data_result (m s : option frame) (w : world) :
  (store_data m s w).2 = inl tt.
Proof. by destruct (store_data_run m s w) as (l & -> & _). Qed.

Lemma store_data_frame (m s : option frame) (w : world) :
  ∃ l, store_data m s w =
         ({| store := (persist m s (store w)).1; logged := logged w ++ l |}, inl tt).
Proof. destruct (store_data_run m s w) as (l & H & _). eauto. Qed.

Lemma run_collection_cycle_run (resp : response) (w : world) :
  ∃ l, run_collection_cycle resp w =
         ({| store := store_after_cycle resp (store w); logged := logged w ++ l |},
          inl (cycle_succeeds resp)).
Proof.
  unfold run_collection_cycle, try_except, bind at 1.
  rewrite logger_add_log. unfold bind at 1.
  rewrite fetch_weather_data_run. unfold cycle_succeeds, store_after_cycle.
  destruct (payload resp) as [raw|]; [|cbn; rewrite <- !app_assoc; by eexists].
  destruct raw as [|rec raw].
  { cbn. rewrite <- !app_assoc. by eexists. }
  cbn [falsy]. unfold bind at 1.
  destruct (decide (usable (rec :: raw))) as [[Hne Hall]|Hn].
  - rewrite bool_decide_eq_true_2 by done.
    rewrite (process_data_ok (rec :: raw) _ Hne Hall). unfold bind.
    match goal with |- context [store_data ?m ?s ?w1] =>
      destruct (store_data_frame m s w1) as (l & ->) end.
    rewrite logger_add_log. unfold add_log. cbn [store logged ret].
    rewrite <- !app_assoc. by eexists.
  - rewrite bool_decide_eq_false_2 by done.
    match goal with |- context [process_data ?r ?w1] =>
      destruct (process_data_missing (rec :: raw) w1) as (c & _ & _ & Heq);
        [done|by intros ?; apply Hn|];
      change (process_data r w1) with (process_data (Some (rec :: raw)) w1) end.
    rewrite Heq. unfold bind. rewrite ?logger_add_log. unfold add_log.
    cbn [store logged ret]. rewrite <- !app_assoc. by eexists.
Qed.

(** X2: a cycle never raises, and it returns True exactly when the fetch
    yields a non-empty list in which every required column occurs: the
    outcome of the persist stage plays no part, so a cycle whose
    [store_data] failed still reports success.  The store it leaves is
    the one the two writes of [store_data] leave on the normalised
    frames, and the untouched store otherwise. *)
Theorem cycle_reports_success_iff_normalised (resp : response) (w : world) :
  ((run_collection_cycle resp w).2 = inl true ↔
   ∃ raw, payload resp = Some raw ∧ usable raw)
  ∧ ((run_collection_cycle resp w).2 = inl false ↔
     ¬ ∃ raw, payload resp = Some raw ∧ usable raw)
  ∧ store (run_collection_cycle resp w).1 = store_after_cycle resp (store w).
Proof.
  destruct (run_collection_cycle_run resp w) as (l & ->). cbn [fst snd store].
  split; [|split; [|done]]; unfold cycle_succeeds.
  - destruct (payload resp) as [raw|].
    + split.
      * intros [= H%bool_decide_eq_true]. eauto.
      * intros (raw' & [= <-] & H). by rewrite bool_decide_eq_true_2.
    + split; [done|]. by intros (? & ? & _).
  - destruct (payload resp) as [raw|].
    + split.
      * intros [= H%bool_decide_eq_false] (raw' & [= <-] & H'). done.
      * intros H. rewrite bool_decide_eq_false_2; [done|]. intros H'. apply H. eauto.
    + split; [|done]. by intros _ (? & ? & _).
Qed.

Lemma appended_extends (old : list row) (m : frame) :
  ∃ added, appended old m = (old ++ added)%list.
Proof.
  unfold appended. destruct (executemany _ _ _ _) as [rs|e] eqn:E.
  - apply executemany_inl in E as ->. eauto.
  - exists []. by rewrite app_nil_r.
Qed.

Lemma store_after_cycle_ready (resp : response) (db : database) (rs : list row) :
  tables db !! "measurements" = Some {| t_def := measurements_table; t_rows := rs |} →
  indexes db = schema_indexes →
  ∃ added,
    tables (store_after_cycle resp db) !! "measurements"
      = Some {| t_def := measurements_table; t_rows := (rs ++ added)%list |}
    ∧ indexes (store_after_cycle resp db) = schema_indexes.
Proof.
  intros Ht Hi. unfold store_after_cycle.
  destruct (payload resp) as [raw|]; [|exists []; by rewrite app_nil_r].
  destruct (decide (usable raw)) as [[Hne _]|_]; [|exists []; by rewrite app_nil_r].
  destruct (persist_normalized raw db rs Hne Ht Hi) as [Ht' Hi'].
  destruct (appended_extends rs (normalized_measurements raw)) as [added Ha].
  exists added. by rewrite Ht', Ha.
Qed.

(** X3: on a store that carries the measurements relation and the
    indexes of the schema, a cycle - whatever the server answers - leaves
    a store that carries them too, and keeps every measurement row in
    place: new rows only follow the old ones. *)
Theorem cycle_keeps_schema_and_rows (resp : response) (w : world) :
  measurements_ready (store w) →
  measurements_ready (store (run_collection_cycle resp w).1)
  ∧ ∃ added,
      measurement_rows (store (run_collection_cycle resp w).1)
        = (measurement_rows (store w) ++ added)%list.
Proof.
  intros [[rs Ht] Hi].
  destruct (run_collection_cycle_run resp w) as (l & ->). cbn [fst store].
  destruct (store_after_cycle_ready resp _ rs Ht Hi) as (added & Ht' & Hi').
  split.
  - split; [by eexists|done].
  - exists added. unfold measurement_rows. by rewrite Ht, Ht'.
Qed.

Lemma cycle_keeps_schema_and_rows_witness :
  measurements_ready (store (run_collection_cycle (feed [complete_record]) first_cycle).1)
  ∧ ∃ added,
      measurement_rows (store (run_collection_cycle (feed [complete_record]) first_cycle).1)
        = (measurement_rows (store first_cycle) ++ added)%list.
Proof.
  apply (cycle_keeps_schema_and_rows (feed [complete_record]) first_cycle).
  split; [exists (t_rows first_measurements)|]; evaluate.
Defined.

(** The cycle of the scenario, run a second time: it reports success
    although the persist stage logged the duplicate key as an error. *)
Example second_cycle_reports_success :
  (run_collection_cycle (feed [complete_record]) first_cycle).2 = inl true
  ∧ Log ERROR "Error storing data: UNIQUE constraint failed"
      ∈ logged (run_collection_cycle (feed [complete_record]) first_cycle).1.
Proof. split; [evaluate|]. apply (bool_decide_unpack _). vm_compute. exact I. Qed.

(** * More on the normaliser *)

Lemma keep_first_NoDup (seen l : list row) : NoDup (keep_first seen l).
Proof.
  revert seen. induction l as [|r l IH]; intros seen; cbn; [constructor|].
  destruct (decide (r ∈ seen)); [apply IH|].
  constructor; [|apply IH]. rewrite elem_of_keep_first. intros [_ H]. apply H. by left.
Qed.

Lemma keep_first_length (seen l : list row) : (length (keep_first seen l) ≤ length l)%nat.
Proof.
  revert seen. induction l as [|r l IH]; intros seen; cbn; [done|].
  destruct (decide (r ∈ seen)); cbn.
  - etrans; [apply IH|]. apply Nat.le_succ_diag_r.
  - apply le_n_S, IH.
Qed.

Lemma add_measurement_id_inj :
  Inj (=) (=) (λ r : row, (r ++ [Str (measurement_id r)])%list).
Proof. intros r r' H. by apply app_inj_tail in H as [-> _]. Qed.

(** X4: the frames normalisation returns hold no row twice, and no row
    that does not stem from a record: the measurement rows are exactly
    the rows derived from the records, the station rows exactly the
    records' station columns, each once; neither frame has more rows
    than there are records. *)
Theorem normalised_frames_are_deduplicated
    (raw : list record) (w : world) (m s : frame) :
  (process_data (Some raw) w).2 = inl (Some m, Some s) →
  columns m = (measurement_columns ++ ["measurementid"])%list
  ∧ columns s = station_columns
  ∧ NoDup (rows m) ∧ NoDup (rows s)
  ∧ (∀ r, r ∈ rows m ↔ ∃ rec, rec ∈ raw ∧ r = measurement_row raw rec)
  ∧ (∀ r, r ∈ rows s ↔ ∃ rec, rec ∈ raw ∧ r = data_cell raw rec <$> station_columns)
  ∧ (0 < len m ≤ length raw)%nat ∧ (0 < len s ≤ length raw)%nat.
Proof.
  intros (Hne & _ & -> & [= ->])%process_data_Some.
  destruct (normalized_not_empty raw Hne) as [Hem Hes].
  assert (∀ cols, length (keep_first [] (project raw cols)) ≤ length raw)%nat as Hlen.
  { intros cols. etrans; [apply keep_first_length|]. unfold project.
    by rewrite length_fmap. }
  split; [done|]. split; [done|]. split; [|split; [|split; [|split; [|split]]]].
  - cbn. apply (NoDup_fmap_2 _ (Inj0 := add_measurement_id_inj)). apply keep_first_NoDup.
  - cbn. apply keep_first_NoDup.
  - apply rows_normalized_measurements.
  - intros r. cbn. rewrite elem_of_drop_duplicates. unfold project.
    rewrite list_elem_of_fmap.
    split; [intros (rec & -> & H)|intros (rec & H & ->)]; by exists rec.
  - unfold len. cbn [rows normalized_measurements]. rewrite length_fmap.
    split; [|apply Hlen]. unfold empty in Hem. cbn in Hem.
    destruct (keep_first _ _); [done|cbn; lia].
  - unfold len. cbn [rows normalized_stations].
    split; [|apply Hlen]. unfold empty in Hes. cbn in Hes.
    destruct (keep_first _ _); [done|cbn; lia].
Qed.

Lemma normalised_frames_are_deduplicated_witness :
  NoDup (rows (normalized_measurements [complete_record; complete_record]))
  ∧ len (normalized_measurements [complete_record; complete_record]) = 1%nat.
Proof.
  destruct (normalised_frames_are_deduplicated
              [complete_record; complete_record] fresh
              (normalized_measurements [complete_record; complete_record])
              (normalized_stations [complete_record; complete_record]))
    as (_ & _ & H & _); [evaluate|].
  split; [exact H|]. vm_compute. reflexivity.
Defined.

Lemma existsb_snoc_present {A} (f : A → bool) (l : list A) (x : A) :
  x ∈ l → existsb f (l ++ [x])%list = existsb f l.
Proof.
  intros Hx. rewrite existsb_app. cbn. rewrite orb_false_r.
  destruct (f x) eqn:Hf; [|by rewrite orb_false_r].
  rewrite orb_true_r. symmetry. apply existsb_exists. exists x.
  split; [by apply list_elem_of_In|done].
Qed.

Lemma keep_first_snoc_present (seen l : list row) (r : row) :
  r ∈ l ∨ r ∈ seen → keep_first seen (l ++ [r])%list = keep_first seen l.
Proof.
  revert seen. induction l as [|x l IH]; intros seen H; cbn.
  - destruct H as [H|H]; [by apply elem_of_nil in H|]. by rewrite decide_True.
  - destruct (decide (x ∈ seen)).
    + apply IH. destruct H as [[->|H]%elem_of_cons|H]; auto.
    + f_equal. apply IH. destruct H as [[->|H]%elem_of_cons|H]; auto.
      * right. by left.
      * right. by right.
Qed.

Lemma all_keys_snoc_present (raw : list record) (rec : record) :
  rec ∈ raw → all_keys (raw ++ [rec])%list = all_keys raw.
Proof.
  intros Hrec. apply set_eq. intros c. rewrite !elem_of_all_keys. split.
  - intros (r & [Hr|Hr%list_elem_of_singleton]%elem_of_app & Hc); [by exists r|].
    subst r. by exists rec.
  - intros (r & Hr & Hc). exists r. split; [|done]. apply elem_of_app. by left.
Qed.

Lemma data_cell_snoc_present (raw : list record) (rec r : record) (c : string) :
  rec ∈ raw → data_cell (raw ++ [rec])%list r c = data_cell raw r c.
Proof.
  intros Hrec. unfold data_cell, infer_dtype, raw_column.
  rewrite fmap_app. cbn [fmap list_fmap].
  rewrite !existsb_snoc_present; [done| |];
    apply list_elem_of_fmap; by exists rec.
Qed.

Lemma project_snoc_present (raw : list record) (rec : record) (cols : list string) :
  rec ∈ raw →
  keep_first [] (project (raw ++ [rec])%list cols) = keep_first [] (project raw cols).
Proof.
  intros Hrec. unfold project. rewrite fmap_app.
  assert (∀ l : list record,
            (λ r, data_cell (raw ++ [rec])%list r <$> cols) <$> l
            = (λ r, data_cell raw r <$> cols) <$> l) as Hext.
  { intros l. apply list_fmap_ext. intros _ r _. apply list_fmap_ext.
    intros _ c _. by apply data_cell_snoc_present. }
  rewrite !Hext. apply (keep_first_snoc_present [] _ (data_cell raw rec <$> cols)). left.
  apply list_elem_of_fmap. by exists rec.
Qed.

(** X5: a record that the feed lists a second time changes nothing:
    normalising the list with the repeated record appended returns the
    frames, or the failure, that normalising the list itself returns. *)
Theorem repeated_record_counts_once (raw : list record) (rec : record) (w : world) :
  rec ∈ raw →
  (process_data (Some (raw ++ [rec])%list) w).2 = (process_data (Some raw) w).2.
Proof.
  intros Hrec.
  assert (raw ≠ []) as Hne by (intros ->; by apply elem_of_nil in Hrec).
  assert ((raw ++ [rec])%list ≠ []) as Hne' by (by destruct raw).
  destruct (decide (Forall (λ c, c ∈ all_keys raw) required_columns)) as [Hall|Hn].
  - rewrite (process_data_ok raw w Hne Hall).
    rewrite (process_data_ok (raw ++ [rec])%list w Hne')
      by (by rewrite all_keys_snoc_present).
    cbn [snd]. unfold normalized_measurements, normalized_stations.
    by rewrite !project_snoc_present.
  - destruct (process_data_missing raw w Hne Hn) as (c & _ & _ & ->).
    destruct (process_data_missing (raw ++ [rec])%list w Hne') as (c' & _ & _ & ->);
      [by rewrite all_keys_snoc_present|done].
Qed.

Lemma repeated_record_counts_once_witness :
  (process_data
     (Some ([complete_record; incomplete_record] ++ [complete_record])%list) fresh).2
  = (process_data (Some [complete_record; incomplete_record]) fresh).2.
Proof.
  apply (repeated_record_counts_once [complete_record; incomplete_record]
           complete_record fresh).
  by left.
Defined.

(** ** The separator of the derived key *)




Example separator_collision :
  (λ r, at_index r 10)
    <$> rows (normalized_measurements [underscore_record_1; underscore_record_2])
  = [Str "A_1_2"; Str "A_1_2"].
Proof. vm_compute. reflexivity. Qed.


(** * More on the persister *)

Lemma info_only_no_error (l : list log_line) : info_only l → ¬ has_error l.
Proof.
  intros Hinfo [text Hlast]. apply last_Some in Hlast as [l' ->].
  apply Forall_app in Hinfo as [_ Hinfo]. by inversion Hinfo.
Qed.

(** X7: an append is all or nothing.  Whatever the frames, the
    measurements relation afterwards holds its old rows, followed either
    by every row of the batch or by none of them.  The log of the call
    tells which: when it ends in an error no row was added; when it does
    not, the whole of a non-empty batch was. *)
Theorem append_is_all_or_nothing
    (m : frame) (s : option frame) (w : world) (t : table) :
  tables (store w) !! "measurements" = Some t →
  ∃ l,
    logged (store_data (Some m) s w).1 = (logged w ++ l)%list
    ∧ ((has_error l ∧
        tables (store (store_data (Some m) s w).1) !! "measurements" = Some t)
       ∨ (info_only l ∧ empty m = true ∧
          tables (store (store_data (Some m) s w).1) !! "measurements" = Some t)
       ∨ (info_only l ∧ empty m = false ∧
          tables (store (store_data (Some m) s w).1) !! "measurements"
            = Some {| t_def := t_def t;
                      t_rows := (t_rows t ++ (bind_row (t_def t) (columns m) <$> rows m))%list |})).
Proof.
  intros Ht. destruct (store_data_run (Some m) s w) as (l & -> & Hl).
  exists l. split; [done|]. cbn [fst store].
  revert Hl. unfold persist, bind.
  destruct (write s "stations" replace stations_dtype (store w)) as [db1 r1] eqn:E1.
  pose proof (write_stations_keeps_measurements _ _ _ _ E1) as Ht1. rewrite Ht in Ht1.
  destruct r1 as [[]|e1]; cbn [fst snd].
  - unfold write, when. destruct (empty m) eqn:Hem; cbn [negb ret fst snd].
    + intros Hl. right; left. done.
    + rewrite to_sql_append_existing by by eexists.
      destruct (insert "measurements" m db1) as [db2 r2] eqn:E2.
      apply insert_cases in E2 as [[-> [e ->]]|(-> & t' & Ht' & _ & ->)]; cbn [fst snd].
      * intros (l' & -> & _). left. split; [|done]. exists ("Error storing data: " +:+ describe e).
        by rewrite last_snoc.
      * intros Hl. right; right. split; [done|]. split; [done|].
        rewrite Ht1 in Ht'. injection Ht' as <-. cbn. by rewrite lookup_insert_eq.
  - intros (l' & -> & _). left. split; [|done].
    exists ("Error storing data: " +:+ describe e1). by rewrite last_snoc.
Qed.

Lemma append_is_all_or_nothing_witness :
  ∃ l,
    logged (store_data (Some (normalized_measurements second_batch)) None first_cycle).1
      = (logged first_cycle ++ l)%list
    ∧ ((has_error l ∧
        tables (store (store_data (Some (normalized_measurements second_batch)) None
                         first_cycle).1) !! "measurements" = Some first_measurements)
       ∨ (info_only l ∧ empty (normalized_measurements second_batch) = true ∧
          tables (store (store_data (Some (normalized_measurements second_batch)) None
                           first_cycle).1) !! "measurements" = Some first_measurements)
       ∨ (info_only l ∧ empty (normalized_measurements second_batch) = false ∧
          tables (store (store_data (Some (normalized_measurements second_batch)) None
                           first_cycle).1) !! "measurements"
            = Some {| t_def := t_def first_measurements;
                      t_rows := (t_rows first_measurements ++
                                 (bind_row (t_def first_measurements)
                                    (columns (normalized_measurements second_batch))
                                    <$> rows (normalized_measurements second_batch)))%list |})).
Proof.
  apply (append_is_all_or_nothing (normalized_measurements second_batch) None
           first_cycle first_measurements).
  evaluate.
Defined.

Lemma create_new_table (name : string) (d : table_def) (db : database) :
  tables db !! name = None → indexes db !! name = None → NoDup (column_names d) →
  create_table name d db = (add_table db name d, inl tt).
Proof.
  intros Ht Hi Hnd. unfold create_table, bind, get. rewrite Ht, Hi.
  destruct (decide (is_Some None)) as [[? ?]|_]; [done|].
  by destruct (decide (NoDup (column_names d))).
Qed.

(** [to_sql(..., if_exists="append")] on a table that does not exist
    creates it, without any key, and fills it. *)
Lemma to_sql_append_new (f : frame) (name : string) (dtypes : gmap string string)
    (db : database) :
  NoDup (columns f) → tables db !! name = None → no_index_on name db →
  to_sql f name connect append dtypes db =
    ({| tables := <[name := stored dtypes f]> (tables db); indexes := indexes db |},
     inl tt).
Proof.
  intros Hnd Ht [Hname Hon]. rewrite to_sql_unfold. unfold bind at 1.
  rewrite bool_decide_eq_false_2 by (rewrite Ht; by intros [? ?]).
  rewrite create_new_table; [|done|done|by rewrite column_names_pandas_table].
  rewrite (insert_into_new_table name f dtypes).
  - unfold add_table, stored. cbn. by rewrite insert_insert_eq.
  - unfold add_table. cbn. by rewrite lookup_insert_eq.
  - done.
Qed.

(** Appending to a table pandas created: nothing can collide. *)
Lemma to_sql_append_unkeyed (f : frame) (name : string) (dtypes : gmap string string)
    (db : database) (old : list row) :
  tables db !! name = Some {| t_def := pandas_table dtypes f; t_rows := old |} →
  no_index_on name db →
  to_sql f name connect append dtypes db =
    ({| tables := <[name := {| t_def := pandas_table dtypes f;
                               t_rows := (old ++ t_rows (stored dtypes f))%list |}]>
                    (tables db);
        indexes := indexes db |}, inl tt).
Proof.
  intros Ht [_ Hon]. rewrite to_sql_append_existing by (rewrite Ht; by eexists).
  erewrite insert_run; [|exact Ht|].
  - cbn [t_def t_rows]. rewrite unique_keys_none by done.
    by rewrite executemany_free.
  - cbn [t_def]. rewrite column_names_pandas_table.
    apply list_find_None, Forall_forall. by intros c Hc Hn.
Qed.

Lemma persist_measurements_only (m : frame) (db : database) :
  empty m = false →
  persist (Some m) None db = to_sql m "measurements" connect append measurements_dtype db.
Proof.
  intros Hem. unfold persist, write, when, bind. rewrite Hem. cbn [ret negb].
  by destruct (to_sql _ _ _ _ _ db) as [? [[]|?]].
Qed.

(** X8: the deduplication rests on the schema alone.  On a store where
    [setup_database] has not created the measurements relation,
    [store_data] lets pandas create it without any key, and persisting
    the same measurements again stores every row a second time. *)
Theorem without_the_schema_rows_are_stored_twice (m : frame) (w : world) :
  NoDup (columns m) → empty m = false →
  tables (store w) !! "measurements" = None →
  no_index_on "measurements" (store w) →
  let bound := bind_row (pandas_table measurements_dtype m) (columns m) <$> rows m in
  measurement_rows (store (store_data (Some m) None w).1) = bound
  ∧ measurement_rows
      (store (store_data (Some m) None (store_data (Some m) None w).1).1)
    = (bound ++ bound)%list
  ∧ (∃ t, tables (store (store_data (Some m) None w).1) !! "measurements" = Some t
          ∧ t_primary_key (t_def t) = None).
Proof.
  intros Hnd Hem Ht Hno. cbn zeta.
  rewrite !store_data_store, !persist_measurements_only by done.
  rewrite (to_sql_append_new m "measurements" measurements_dtype _ Hnd Ht Hno).
  cbn [fst]. erewrite to_sql_append_unkeyed;
    [|cbn; by rewrite lookup_insert_eq|exact Hno].
  unfold measurement_rows. cbn. rewrite insert_insert_eq, !lookup_insert_eq.
  split; [done|]. split; [done|]. by eexists.
Qed.

Lemma without_the_schema_rows_are_stored_twice_witness :
  let m := normalized_measurements [complete_record] in
  let bound := bind_row (pandas_table measurements_dtype m) (columns m) <$> rows m in
  measurement_rows (store (store_data (Some m) None fresh).1) = bound
  ∧ measurement_rows
      (store (store_data (Some m) None (store_data (Some m) None fresh).1).1)
    = (bound ++ bound)%list
  ∧ (∃ t, tables (store (store_data (Some m) None fresh).1) !! "measurements" = Some t
          ∧ t_primary_key (t_def t) = None).
Proof.
  apply (without_the_schema_rows_are_stored_twice
           (normalized_measurements [complete_record]) fresh).
  - apply (bool_decide_unpack _). vm_compute. exact I.
  - reflexivity.
  - reflexivity.
  - split; [reflexivity|]. intros n i H.
    change (indexes (store fresh)) with (∅ : gmap string index) in H.
    by rewrite lookup_empty in H.
Defined.

(** ** A batch without collisions *)

Lemma affinity_text (c : cell) :
  c ≠ NaN → affinity "TEXT" c = Str (py_str c).
Proof. intros H. unfold affinity. rewrite decide_True by done. by destruct c. Qed.

Lemma keyed_fields (r : row) :
  keyed r →
  ∃ sid ts,
    field measurements_table (bind_measurement r) "measurementid"
      = Str (sid +:+ "_" +:+ ts)
    ∧ field measurements_table (bind_measurement r) "stationid" = Str sid
    ∧ field measurements_table (bind_measurement r) "timestamp" = Str ts
    ∧ at_index r 10 = Str (sid +:+ "_" +:+ ts).
Proof.
  intros (cells & Hlen & -> & H0 & H1).
  do 11 (destruct cells as [|? cells]; try done).
  exists (py_str c), (py_str c0). unfold at_index in H0, H1. cbn in H0, H1.
  split; [reflexivity|]. split; [|split; [|reflexivity]].
  - change (field _ _ "stationid") with (affinity "TEXT" c). by apply affinity_text.
  - change (field _ _ "timestamp") with (affinity "TEXT" c0). by apply affinity_text.
Qed.

Lemma existsb_false {A} (f : A → bool) (l : list A) :
  (∀ x, x ∈ l → f x = false) → existsb f l = false.
Proof.
  intros H. induction l as [|x l IH]; [done|]. cbn.
  rewrite (H x) by by left. apply IH. intros y Hy. apply H. by right.
Qed.

Lemma violation_none (old : list row) (b : row) :
  is_null (field measurements_table b "stationid") = false →
  is_null (field measurements_table b "timestamp") = false →
  (∀ o, o ∈ old →
        same_key measurements_table ["measurementid"] b o = false
        ∧ same_key measurements_table ["stationid"; "timestamp"] b o = false) →
  violation measurement_keys measurements_table old b = None.
Proof.
  intros Hs Ht Hold. unfold violation.
  cbn [t_not_null measurements_table existsb]. rewrite Hs, Ht. cbn [orb].
  cbn [measurement_keys existsb]. unfold unique_conflict.
  rewrite !existsb_false; [done| |]; intros o Ho; by apply Hold.
Qed.

(** Two keyed rows collide only when they have the same derived key. *)
Lemma keyed_collision (r r' : row) :
  keyed r → keyed r' → at_index r 10 ≠ at_index r' 10 →
  same_key measurements_table ["measurementid"] (bind_measurement r) (bind_measurement r')
    = false
  ∧ same_key measurements_table ["stationid"; "timestamp"]
             (bind_measurement r) (bind_measurement r') = false.
Proof.
  intros (sid & ts & Hk & Hs & Ht & Hid)%keyed_fields
         (sid' & ts' & Hk' & Hs' & Ht' & Hid')%keyed_fields Hne.
  rewrite Hid, Hid' in Hne. cbn [same_key forallb].
  rewrite Hk, Hk', Hs, Hs', Ht, Ht'. cbn [sql_eqb].
  split.
  - rewrite bool_decide_eq_false_2; [done|]. intros H. apply Hne. by rewrite H.
  - destruct (decide (sid = sid')) as [->|Hsid];
      [|by rewrite (bool_decide_eq_false_2 _ Hsid)].
    destruct (decide (ts = ts')) as [->|Hts]; [done|].
    rewrite (bool_decide_eq_false_2 _ Hts). by rewrite andb_false_r.
Qed.

Lemma executemany_without_collision (rs before todo : list row) :
  Forall keyed (before ++ todo)%list →
  NoDup ((λ r, at_index r 10) <$> (before ++ todo)%list) →
  (∀ o r, o ∈ rs → r ∈ todo →
          same_key measurements_table ["measurementid"] (bind_measurement r) o = false
          ∧ same_key measurements_table ["stationid"; "timestamp"]
                     (bind_measurement r) o = false) →
  executemany measurement_keys measurements_table
              (rs ++ (bind_measurement <$> before))%list (bind_measurement <$> todo)
  = inl (rs ++ (bind_measurement <$> (before ++ todo)))%list.
Proof.
  revert before. induction todo as [|x todo IH]; intros before Hkeyed Hnd Hrs.
  - by rewrite app_nil_r.
  - cbn [fmap list_fmap executemany].
    assert (keyed x) as Hx.
    { rewrite Forall_forall in Hkeyed. apply Hkeyed, elem_of_app. right. by left. }
    rewrite violation_none.
    + replace (before ++ x :: todo)%list with ((before ++ [x]) ++ todo)%list in *
        by (by rewrite <- app_assoc).
      rewrite <- (IH (before ++ [x])%list); [|done|done|].
      * by rewrite fmap_app, app_assoc.
      * intros o r Ho Hr. apply Hrs; [done|by right].
    + destruct (keyed_fields x Hx) as (? & ? & _ & -> & _). done.
    + destruct (keyed_fields x Hx) as (? & ? & _ & _ & -> & _). done.
    + intros o [Ho|(y & -> & Hy)%list_elem_of_fmap]%elem_of_app.
      * apply Hrs; [done|by left].
      * apply keyed_collision; [done| |].
        { rewrite Forall_forall in Hkeyed. apply Hkeyed, elem_of_app. by left. }
        rewrite fmap_app in Hnd. apply NoDup_app in Hnd as (_ & Hdis & _).
        intros Heq. apply (Hdis (at_index y 10)).
        -- apply list_elem_of_fmap. by exists y.
        -- rewrite <- Heq. cbn. by left.
Qed.

Lemma persist_normalized_run (raw : list record) (db : database) (rs : list row) :
  raw ≠ [] →
  tables db !! "measurements" = Some {| t_def := measurements_table; t_rows := rs |} →
  indexes db = schema_indexes →
  (persist (Some (normalized_measurements raw)) (Some (normalized_stations raw)) db).2
  = match executemany measurement_keys measurements_table rs
                      (bound_measurements (normalized_measurements raw)) with
    | inl _ => inl tt
    | inr e => inr e
    end.
Proof.
  intros Hne Ht Hi. destruct (normalized_not_empty raw Hne) as [Hem Hes].
  assert (no_index_on "stations" db) as Hno.
  { split; [by rewrite Hi|]. intros n i H. rewrite Hi in H. unfold schema_indexes in H.
    repeat (apply lookup_insert_Some in H as [[_ <-]|[_ H]]; [discriminate|]).
    apply lookup_singleton_Some in H as [_ <-]. discriminate. }
  unfold persist, bind, write, when. rewrite Hem, Hes. cbn [negb].
  rewrite (to_sql_replace (normalized_stations raw) "stations" stations_dtype db
             station_columns_NoDup Hno).
  rewrite to_sql_append_existing
    by (cbn; rewrite lookup_insert_ne by done; rewrite Ht; by eexists).
  erewrite insert_run;
    [|cbn; rewrite lookup_insert_ne by done; exact Ht|vm_compute; reflexivity].
  cbn [t_def t_rows]. rewrite unique_keys_measurements by done.
  unfold bound_measurements. by destruct (executemany _ _ _ _).
Qed.

Lemma data_cell_present (raw : list record) (rec : record) (c : string) :
  is_Some (rec !! c) → data_cell raw rec c ≠ NaN.
Proof.
  intros [x Hx]. unfold data_cell, raw_cell. rewrite Hx.
  by destruct x, (infer_dtype _).
Qed.

Lemma normalized_rows_keyed (raw : list record) (r : row) :
  (∀ rec, rec ∈ raw → is_Some (rec !! "stationid") ∧ is_Some (rec !! "timestamp")) →
  r ∈ rows (normalized_measurements raw) → keyed r.
Proof.
  intros Hall (rec & Hrec & ->)%rows_normalized_measurements.
  destruct (Hall rec Hrec) as [Hs Ht].
  exists (data_cell raw rec <$> measurement_columns).
  split; [reflexivity|]. split; [reflexivity|].
  split; by apply data_cell_present.
Qed.

Lemma normalized_measurements_NoDup (raw : list record) :
  NoDup (rows (normalized_measurements raw)).
Proof. cbn. apply (NoDup_fmap_2 _ (Inj0 := add_measurement_id_inj)), keep_first_NoDup. Qed.

(** X9: a batch that collides with nothing is stored whole.  On a store
    with the measurements relation of the schema, when every record
    carries its stationid and timestamp, no two rows of the normalised
    batch share a measurementid, and no stored row has the key, or the
    station and timestamp, of a row of the batch, [store_data] appends
    every row of the batch behind the stored ones, in the order of the
    batch, and logs no error. *)
Theorem batch_without_collision_is_stored
    (raw : list record) (w : world) (rs : list row) :
  raw ≠ [] →
  tables (store w) !! "measurements"
    = Some {| t_def := measurements_table; t_rows := rs |} →
  indexes (store w) = schema_indexes →
  (∀ rec, rec ∈ raw → is_Some (rec !! "stationid") ∧ is_Some (rec !! "timestamp")) →
  (∀ r r', r ∈ rows (normalized_measurements raw) →
           r' ∈ rows (normalized_measurements raw) →
           frame_field (normalized_measurements raw) r "measurementid"
             = frame_field (normalized_measurements raw) r' "measurementid" →
           r = r') →
  (∀ o r, o ∈ rs → r ∈ rows (normalized_measurements raw) →
          same_key measurements_table ["measurementid"] (bind_measurement r) o = false
          ∧ same_key measurements_table ["stationid"; "timestamp"]
                     (bind_measurement r) o = false) →
  let after := (store_data (Some (normalized_measurements raw))
                           (Some (normalized_stations raw)) w).1 in
  measurement_rows (store after)
    = (rs ++ (bind_measurement <$> rows (normalized_measurements raw)))%list
  ∧ ∃ l, logged after = (logged w ++ l)%list ∧ info_only l.
Proof.
  intros Hne Ht Hi Hpresent Hdistinct Hfresh. cbn zeta.
  assert (executemany measurement_keys measurements_table rs
            (bound_measurements (normalized_measurements raw))
          = inl (rs ++ (bind_measurement <$> rows (normalized_measurements raw)))%list)
    as Hexec.
  { pose proof (executemany_without_collision rs []
                  (rows (normalized_measurements raw))) as H.
    cbn [fmap list_fmap app] in H. rewrite app_nil_r in H. apply H.
    - apply Forall_forall. intros r Hr. by apply (normalized_rows_keyed raw).
    - apply NoDup_fmap_2_strong; [|apply normalized_measurements_NoDup].
      intros r r' Hr Hr' Heq. by apply Hdistinct.
    - exact Hfresh. }
  destruct (store_data_run (Some (normalized_measurements raw))
              (Some (normalized_stations raw)) w) as (l & -> & Hl).
  cbn [fst store logged].
  rewrite (persist_normalized_run raw _ rs Hne Ht Hi), Hexec in Hl.
  destruct (persist_normalized raw _ rs Hne Ht Hi) as [Ht' _].
  split; [|by exists l].
  unfold measurement_rows. rewrite Ht'. unfold appended. by rewrite Hexec.
Qed.

Lemma batch_without_collision_is_stored_witness :
  let after := (store_data (Some (normalized_measurements second_batch))
                           (Some (normalized_stations second_batch)) set_up).1 in
  measurement_rows (store after)
    = ([] ++ (bind_measurement <$> rows (normalized_measurements second_batch)))%list
  ∧ ∃ l, logged after = (logged set_up ++ l)%list ∧ info_only l.
Proof.
  apply (batch_without_collision_is_stored second_batch set_up []).
  - discriminate.
  - evaluate.
  - evaluate.
  - intros rec [->|[->|H%elem_of_nil]%elem_of_cons]%elem_of_cons; [| |done];
      split; evaluate.
  - intros r r' Hr Hr'.
    assert (rows (normalized_measurements second_batch)
            = [measurement_row second_batch complete_record;
               measurement_row second_batch new_record]) as Hrows
      by (vm_compute; reflexivity).
    rewrite Hrows in Hr, Hr'.
    apply elem_of_cons in Hr as [->|[->|H%elem_of_nil]%elem_of_cons]; [| |done];
      apply elem_of_cons in Hr' as [->|[->|H%elem_of_nil]%elem_of_cons]; try done;
      vm_compute; discriminate.
  - intros o r Ho. by apply elem_of_nil in Ho.
Defined.

(** * What [setup_database] does to a store that is not empty *)

Lemma only_adds_refl (db : database) : only_adds db db.
Proof.
  split; [done|]. split; [done|]. split.
  - intros n t H H'. congruence.
  - intros n i H H'. congruence.
Qed.

Lemma only_adds_trans (db1 db2 db3 : database) :
  only_adds db1 db2 → only_adds db2 db3 → only_adds db1 db3.
Proof.
  intros (Ht & Hi & Hnt & Hni) (Ht' & Hi' & Hnt' & Hni').
  split; [by etrans|]. split; [by etrans|]. split.
  - intros n t Hn H3. destruct (tables db2 !! n) as [t2|] eqn:E2.
    + pose proof (lookup_weaken _ _ _ _ E2 Ht') as H. rewrite H3 in H.
      injection H as ->. by apply Hnt.
    + by apply Hnt'.
  - intros n i Hn H3. destruct (indexes db2 !! n) as [i2|] eqn:E2.
    + pose proof (lookup_weaken _ _ _ _ E2 Hi') as H. rewrite H3 in H.
      injection H as ->. by apply Hni.
    + by apply Hni'.
Qed.

Lemma create_table_only_adds (n : string) (d : table_def) (db db' : database) r :
  full_schema.1 !! n = Some d →
  create_table_if_not_exists n d db = (db', r) → only_adds db db'.
Proof.
  intros Hd [[-> _]|(_ & Hn & ->)]%create_table_cases; [apply only_adds_refl|].
  unfold add_table. cbn [tables indexes]. split; [by apply insert_subseteq|]. split; [done|]. split.
  - intros m t Hm H. cbn [tables indexes] in H.
    apply lookup_insert_Some in H as [[<- <-]|[_ H]]; [done|by rewrite Hm in H].
  - intros m i Hm H. cbn [tables indexes] in H. by rewrite Hm in H.
Qed.

Lemma create_index_writes (n : string) (u : bool) (tbl : string) (cols : list string)
    (db db' : database) r :
  create_index_if_not_exists n u tbl cols db = (db', r) →
  db' = db ∨
  (indexes db !! n = None ∧
   db' = {| tables := tables db;
            indexes := <[n := {| i_table := tbl; i_columns := cols; i_unique := u |}]>
                         (indexes db) |}).
Proof.
  unfold create_index_if_not_exists, bind, get, ret, raise, put.
  destruct (tables db !! tbl) as [t|]; cbn -[decide]; [|intros [= <- <-]; by left].
  destruct (decide (is_Some (tables db !! n))); [intros [= <- <-]; by left|].
  destruct (decide (is_Some (indexes db !! n))) as [Hi|Hi]; [intros [= <- <-]; by left|].
  assert (indexes db !! n = None) as Hnone.
  { destruct (indexes db !! n); [|done]. destruct Hi. by eexists. }
  destruct (list_find _ cols) as [[? c]|]; [intros [= <- <-]; by left|].
  destruct (u && has_duplicate _ _ _); intros [= <- <-]; [by left|by right].
Qed.

Lemma create_index_only_adds (n : string) (u : bool) (tbl : string) (cols : list string)
    (db db' : database) r :
  schema_indexes !! n = Some {| i_table := tbl; i_columns := cols; i_unique := u |} →
  create_index_if_not_exists n u tbl cols db = (db', r) → only_adds db db'.
Proof.
  intros Hd [->|[Hn ->]]%create_index_writes; [apply only_adds_refl|].
  cbn [tables indexes]. split; [done|]. split; [by apply insert_subseteq|]. split.
  - intros m t Hm H. cbn [tables indexes] in H. by rewrite Hm in H.
  - intros m i Hm H. cbn [tables indexes] in H.
    apply lookup_insert_Some in H as [[<- <-]|[_ H]]; [done|by rewrite Hm in H].
Qed.

Lemma seq_only_adds (a b : SQL unit) :
  (∀ db db' r, a db = (db', r) → only_adds db db') →
  (∀ db db' r, b db = (db', r) → only_adds db db') →
  ∀ db db' r, (a;; b) db = (db', r) → only_adds db db'.
Proof.
  intros Ha Hb db db' r. unfold bind.
  destruct (a db) as [db1 [[]|e]] eqn:E.
  - intros H. eapply only_adds_trans; [by eapply Ha|by eapply Hb].
  - intros [= <- <-]. by eapply Ha.
Qed.

Lemma schema_script_only_adds (db db' : database) r :
  schema_script db = (db', r) → only_adds db db'.
Proof.
  revert db db' r. unfold schema_script.
  repeat apply seq_only_adds; intros db db' r.
  - by apply create_table_only_adds.
  - by apply create_table_only_adds.
  - by apply create_index_only_adds.
  - by apply create_index_only_adds.
  - by apply create_index_only_adds.
Qed.

(** X10: [setup_database] only adds.  Whatever the store holds, after
    [setup_database] every table is still there with its definition and
    its rows, and every index; a table that was not there before is an
    empty stations or measurements table as the schema defines it, and
    an index that was not there before is one of the schema's three.
    One line is logged, and no exception leaves the function. *)
Theorem setup_database_only_adds (w : world) :
  only_adds (store w) (store (setup_database w).1)
  ∧ (∃ line, logged (setup_database w).1 = (logged w ++ [line])%list)
  ∧ (setup_database w).2 = inl tt.
Proof.
  rewrite setup_database_run. cbn [fst snd store logged].
  split; [|split; [by eexists|done]].
  destruct (schema_script (store w)) as [db' r] eqn:E. cbn [fst].
  by eapply schema_script_only_adds.
Qed.

(** X11: the stations key is lost for good.  [store_data] with a
    non-empty stations frame leaves a stations table without a primary
    key, and a later [setup_database] does not bring the key back: the
    table is the one [store_data] wrote, and the schema of the store is
    not the one [setup_database] defines. *)
Theorem stations_key_is_not_restored (m : option frame) (s : frame) (w : world) :
  NoDup (columns s) → empty s = false → no_index_on "stations" (store w) →
  let after := (setup_database (store_data m (Some s) w).1).1 in
  tables (store after) !! "stations" = Some (stored stations_dtype s)
  ∧ t_primary_key (t_def (stored stations_dtype s)) = None
  ∧ schema (store after) ≠ full_schema.
Proof.
  intros Hnd He Hno. cbn zeta.
  pose proof (persist_stations m s (store w) Hnd He Hno) as Hs.
  rewrite <- store_data_store in Hs.
  rewrite setup_database_run. cbn [fst store].
  destruct (schema_script (store (store_data m (Some s) w).1)) as [db' r] eqn:E.
  apply schema_script_only_adds in E as (Ht & _). cbn [fst].
  pose proof (lookup_weaken _ _ _ _ Hs Ht) as Hs'.
  split; [done|]. split; [done|].
  unfold schema, full_schema. intros [= Hd _].
  assert ((t_def <$> tables db') !! "stations" = Some stations_table) as H
    by (by rewrite Hd).
  rewrite lookup_fmap, Hs' in H. discriminate.
Qed.

Lemma stations_key_is_not_restored_witness :
  let after := (setup_database (store_data None (Some stations_1) set_up).1).1 in
  tables (store after) !! "stations" = Some (stored stations_dtype stations_1)
  ∧ t_primary_key (t_def (stored stations_dtype stations_1)) = None
  ∧ schema (store after) ≠ full_schema.
Proof.
  apply (stations_key_is_not_restored None stations_1 set_up).
  - apply station_columns_NoDup.
  - reflexivity.
  - apply no_index_on_stations_set_up.
Defined.

(** * The keys over a whole run *)

Lemma distinct_on_snoc (key : list string) (rs : list row) (r : row) :
  distinct_on key rs → unique_conflict measurements_table rs r key = false →
  distinct_on key (rs ++ [r])%list.
Proof.
  intros Hrs Hr i j a b Hij Hi Hj.
  assert (i < length rs)%nat as Hlen.
  { apply lookup_lt_Some in Hj. rewrite length_app in Hj. cbn in Hj. lia. }
  rewrite lookup_app_l in Hi by done.
  destruct (decide (j < length rs)%nat) as [Hj'|Hj'].
  - rewrite lookup_app_l in Hj by done. by apply (Hrs i j).
  - rewrite lookup_app_r in Hj by lia.
    destruct (j - length rs)%nat as [|k] eqn:E; [|done]. injection Hj as <-.
    unfold unique_conflict in Hr.
    destruct (same_key measurements_table key r a) eqn:Hs; [|done].
    assert (existsb (same_key measurements_table key r) rs = true) as Hex.
    { apply existsb_exists. exists a. split; [|done].
      apply list_elem_of_In. by eapply list_elem_of_lookup_2. }
    congruence.
Qed.

Lemma executemany_keeps_distinct (keys : list (list string)) (old new rs : list row) :
  executemany keys measurements_table old new = inl rs →
  Forall (λ key, distinct_on key old) keys →
  Forall (λ key, distinct_on key rs) keys.
Proof.
  revert old. induction new as [|r new IH]; intros old; cbn.
  - by intros [= <-].
  - unfold violation.
    destruct (existsb _ (t_not_null measurements_table)); [done|].
    destruct (existsb (unique_conflict measurements_table old r) keys) eqn:E; [done|].
    intros Hrun Hold. apply (IH _ Hrun).
    apply Forall_forall. intros key Hkey. apply distinct_on_snoc.
    + by eapply Forall_forall in Hold.
    + destruct (unique_conflict measurements_table old r key) eqn:Hc; [|done].
      assert (existsb (unique_conflict measurements_table old r) keys = true) as Hex.
      { apply existsb_exists. exists key. split; [by apply list_elem_of_In|done]. }
      congruence.
Qed.

Lemma appended_keeps_distinct (rs : list row) (m : frame) :
  Forall (λ key, distinct_on key rs) measurement_keys →
  Forall (λ key, distinct_on key (appended rs m)) measurement_keys.
Proof.
  intros H. unfold appended.
  destruct (executemany _ _ _ _) as [rs'|e] eqn:E; [|done].
  by eapply executemany_keeps_distinct.
Qed.

Lemma cycle_invariant (resp : response) (w : world) :
  measurements_ready (store w) → keys_unique (store w) →
  let after := (run_collection_cycle resp w).1 in
  measurements_ready (store after) ∧ keys_unique (store after)
  ∧ measurement_rows (store w) `prefix_of` measurement_rows (store after).
Proof.
  intros [[rs Ht] Hi] Hu. cbn zeta.
  destruct (run_collection_cycle_run resp w) as (l & ->). cbn [fst store].
  unfold keys_unique, measurement_rows in *. rewrite Ht in *. cbn [t_rows] in *.
  unfold store_after_cycle.
  destruct (payload resp) as [raw|];
    [|rewrite Ht; split; [split; [by eexists|done]|done]].
  destruct (decide (usable raw)) as [[Hne _]|_];
    [|rewrite Ht; split; [split; [by eexists|done]|done]].
  destruct (persist_normalized raw _ rs Hne Ht Hi) as [Ht' Hi'].
  rewrite Ht'. cbn [t_rows].
  split; [split; [by eexists|done]|].
  split; [by apply appended_keeps_distinct|].
  destruct (appended_extends rs (normalized_measurements raw)) as [added ->].
  by apply prefix_app_r.
Qed.

(** X12: the keys hold across a cycle.  On a store with the measurements
    relation and the indexes of the schema, in which no two stored rows
    share a measurementid and no two share station and timestamp, a
    cycle - whatever the server answers - leaves a store of which the
    same is true. *)
Theorem cycle_keeps_keys_unique (resp : response) (w : world) :
  measurements_ready (store w) → keys_unique (store w) →
  keys_unique (store (run_collection_cycle resp w).1).
Proof. intros Hr Hu. by destruct (cycle_invariant resp w Hr Hu) as (_ & H & _). Qed.

Lemma cycle_keeps_keys_unique_witness :
  keys_unique (store (run_collection_cycle (feed second_batch) first_cycle).1).
Proof.
  apply (cycle_keeps_keys_unique (feed second_batch) first_cycle).
  - split; [exists (t_rows first_measurements)|];
      evaluate.
  - evaluate.
Defined.

Lemma cycles_invariant (answers : list response) (w : world) :
  measurements_ready (store w) → keys_unique (store w) →
  measurements_ready (store (cycles answers w)) ∧ keys_unique (store (cycles answers w))
  ∧ measurement_rows (store w) `prefix_of` measurement_rows (store (cycles answers w)).
Proof.
  revert w. induction answers as [|resp answers IH]; intros w Hr Hu; [done|].
  destruct (cycle_invariant resp w Hr Hu) as (Hr' & Hu' & Hp).
  destruct (IH _ Hr' Hu') as (Hr'' & Hu'' & Hp'').
  cbn [cycles foldl]. split; [done|]. split; [done|]. by etrans.
Qed.

Lemma cycles_app (a b : list response) (w : world) :
  cycles (a ++ b) w = cycles b (cycles a w).
Proof. unfold cycles. by rewrite foldl_app. Qed.

(** X13: a run from an empty database file.  After [setup_database] on
    a store without tables, and any number of cycles on any answers of
    the server, the store carries the measurements relation and the
    indexes of the schema, no two stored rows share a measurementid or
    share station and timestamp, and further cycles only put rows behind
    the ones stored: no measurement row is removed, changed or moved. *)
Theorem run_from_empty_store (answers more : list response) (w : world) :
  store w = no_database →
  let now := cycles answers (setup_database w).1 in
  measurements_ready (store now) ∧ keys_unique (store now)
  ∧ measurement_rows (store now)
      `prefix_of` measurement_rows (store (cycles (answers ++ more) (setup_database w).1)).
Proof.
  intros Hw. cbn zeta.
  assert (measurements_ready (store (setup_database w).1)
          ∧ keys_unique (store (setup_database w).1)) as [Hr Hu].
  { rewrite setup_database_run. cbn [fst store]. rewrite Hw.
    split; [split; [exists []|]|]; evaluate. }
  destruct (cycles_invariant answers _ Hr Hu) as (Hr' & Hu' & _).
  split; [done|]. split; [done|].
  rewrite cycles_app. by destruct (cycles_invariant more _ Hr' Hu') as (_ & _ & H).
Qed.

Lemma run_from_empty_store_witness :
  let now := cycles [feed [complete_record]] (setup_database fresh).1 in
  measurements_ready (store now) ∧ keys_unique (store now)
  ∧ measurement_rows (store now)
      `prefix_of` measurement_rows
                    (store (cycles ([feed [complete_record]] ++ [feed second_batch])
                                   (setup_database fresh).1)).
Proof. apply (run_from_empty_store [feed [complete_record]] [feed second_batch] fresh). reflexivity. Defined.
